(** * Falcon-Agent: lock manager, goal-graph store and scheduler

    A shallow embedding of
    - [src/utils/file_utils.py]   ([FileLock], [file_lock]),
    - [src/agents/tasker_agent.py] ([_validate_goal_graph],
      [_save_goal_graph], [load_goal_graph]),
    - [src/utils/agent_manager.py] ([assign_tasks], [implement_task],
      [review_task], [fix_task], [verify_fixes]),
    - the stages of the pipeline in the same file ([generate_prd] to
      [approve_goal_graph], [_save_prd], [_load_latest_prd],
      [_load_latest_goal_graph], [__init__]),
    together with the properties of the specification that concern them.

    Conventions.  Python dictionaries are [gmap]s, JSON objects with a
    known set of keys are records whose fields are [option]s ([None] is
    "key absent"), exceptions are the [Raised] branch of [outcome], and
    everything a call reads from its environment (the clock, whether
    [flock] on the lock file is granted, whether a directory is there) is
    an explicit argument.  The call of an agent backed by a language model
    is an argument too: the report it returns, or the exception it ends
    with.  Values are typed: a lock entry has its four fields, the tasks
    of a graph are JSON objects, ids, statuses and priorities are strings.
    In a directory that exists the program may create and write its files;
    [Path.resolve] is the identity on the paths used.  The constants
    [FILE_LOCK_DIR], [FILE_LOCK_TIMEOUT] and [DATA_DIR], imported from
    [src.config.config], are parameters.  A text is the [string] of the
    bytes of its UTF-8 encoding, the encoding of the files; the characters
    the program looks for (braces, quotes, the comma, the newline, the
    carriage return) are one byte each there and occur inside no other
    character. *)

From Stdlib Require Import ZArith Lia Ascii.
From stdpp Require Import gmap strings list fin_maps pretty sorting.

(** ** Exceptions and results *)

(** The two messages with which [FileLock.acquire] raises
    [FileLockException]: the resource is held by somebody else, or the lock
    file itself could not be opened and flock-ed. *)
Inductive lock_failure :=
  | LockedBy (holder : string) (expires_at : Z)
  | LockFileBusy.

Inductive exn :=
  | FileLockException (why : lock_failure)
  | ValueError (msg : string)
  | KeyError (key : string)
  | AttributeError
  | JSONDecodeError
  | UnicodeDecodeError
  | RecursionError
  | IOError.

Inductive outcome (A : Type) :=
  | Returned (a : A)
  | Raised (e : exn).
Arguments Returned {A} a.
Arguments Raised {A} e.

Definition is_FileLockException {A} (r : outcome A) : Prop :=
  match r with
  | Raised (FileLockException _) => True
  | _ => False
  end.

Definition raises {A} (r : outcome A) : Prop :=
  match r with Raised _ => True | Returned _ => False end.

(** ** Lock manager ([src/utils/file_utils.py]) *)

Module FileUtils.

(** One entry of a lock file: [{"owner_id", "time", "timeout", "exclusive"}].
    [li_time] counts microseconds (the resolution of [datetime]),
    [li_timeout] counts seconds. *)
Record lock_info := LockInfo {
  li_owner_id : string;
  li_time : Z;
  li_timeout : Z;
  li_exclusive : bool
}.

(** [timedelta(seconds=n)] in microseconds. *)
Definition seconds (n : Z) : Z := (n * 1000000)%Z.

Definition expires_at (info : lock_info) : Z :=
  (li_time info + seconds (li_timeout info))%Z.

(** [datetime.now() < expires_at] *)
Definition live (info : lock_info) (now : Z) : bool :=
  (now <? expires_at info)%Z.

(** What is in a lock file: text that [json.load] rejects, or a dictionary
    from resource paths to entries. *)
Inductive lock_file :=
  | Undecodable
  | Decoded (data : gmap string lock_info).

(** [FILE_LOCK_DIR]: lock files by the hash in their name; a key without a
    value is a file that does not exist. *)
Abbreviation lock_dir := (gmap Z lock_file).

(** [try: data = json.load(f) except json.JSONDecodeError: data = {}] *)
Definition load_data (f : lock_file) : gmap string lock_info :=
  match f with
  | Undecodable => ∅
  | Decoded data => data
  end.

(** The [FileLock] object. *)
Record FileLock := MkFileLock {
  file_path : string;
  owner_id : string;
  timeout : Z;
  lock_file_path : Z;
  lock_data : option lock_info;
  locked : bool
}.

(** [FileLock.__init__]; [py_hash] is the built-in [hash] on strings. *)
Definition FileLock_init (py_hash : string → Z)
    (path owner : string) (tmo : Z) : FileLock :=
  {| file_path := path; owner_id := owner; timeout := tmo;
     lock_file_path := py_hash path; lock_data := None; locked := false |}.

(** What one call of [acquire] observes: whether [flock(LOCK_EX | LOCK_NB)]
    on the lock file fails, and the two readings of [datetime.now()]. *)
Record acquire_env := AcquireEnv {
  flock_busy : bool;
  now_check : Z;
  now_stamp : Z
}.

(** The entry stored for the resource of [self], as the methods read it. *)
Definition stored_record (self : FileLock) (dir : lock_dir) : option lock_info :=
  match dir !! lock_file_path self with
  | None => None
  | Some f => load_data f !! file_path self
  end.

(** Lines 62-67: the lock file is created holding [{}] when it is absent. *)
Definition ensure_lock_file (self : FileLock) (dir : lock_dir) : lock_dir :=
  match dir !! lock_file_path self with
  | None => <[lock_file_path self := Decoded ∅]> dir
  | Some _ => dir
  end.

(** Lines 81-99: the check of an existing entry; [Some why] when it raises. *)
Definition contention (self : FileLock) (exclusive : bool) (now : Z)
    (data : gmap string lock_info) : option lock_failure :=
  match data !! file_path self with
  | Some info =>
      if live info now then
        if bool_decide (li_owner_id info ≠ owner_id self) then
          if exclusive || li_exclusive info
          then Some (LockedBy (li_owner_id info) (expires_at info))
          else None
        else None
      else None
  | None => None
  end.

(** [FileLock.acquire]. *)
Definition acquire (self : FileLock) (exclusive : bool) (e : acquire_env)
    (dir : lock_dir) : outcome bool * FileLock * lock_dir :=
  let dir := ensure_lock_file self dir in
  if flock_busy e then
    (Raised (FileLockException LockFileBusy), self, dir)
  else
    let data := default ∅ (load_data <$> dir !! lock_file_path self) in
    match contention self exclusive (now_check e) data with
    | Some why => (Raised (FileLockException why), self, dir)
    | None =>
        let info := {| li_owner_id := owner_id self;
                       li_time := now_stamp e;
                       li_timeout := timeout self;
                       li_exclusive := exclusive |} in
        let data := <[file_path self := info]> data in
        (Returned true,
         {| file_path := file_path self; owner_id := owner_id self;
            timeout := timeout self; lock_file_path := lock_file_path self;
            lock_data := Some info; locked := true |},
         <[lock_file_path self := Decoded data]> dir)
    end.

Definition set_locked (self : FileLock) (b : bool) : FileLock :=
  {| file_path := file_path self; owner_id := owner_id self;
     timeout := timeout self; lock_file_path := lock_file_path self;
     lock_data := lock_data self; locked := b |}.

(** [FileLock.release]; [busy] says that opening or flock-ing the lock file
    fails ([IOError]), which the method turns into [False]. *)
Definition release (self : FileLock) (busy : bool) (dir : lock_dir)
    : bool * FileLock * lock_dir :=
  if negb (locked self) then (false, self, dir)
  else
    match dir !! lock_file_path self with
    | None => (false, self, dir)
    | Some f =>
        if busy then (false, self, dir)
        else
          let data := load_data f in
          match data !! file_path self with
          | Some info =>
              if bool_decide (li_owner_id info = owner_id self) then
                (true, set_locked self false,
                 <[lock_file_path self := Decoded (delete (file_path self) data)]> dir)
              else (false, self, dir)
          | None => (true, set_locked self false, dir)
          end
    end.

(** [FileLock.is_locked]. *)
Definition is_locked (self : FileLock) (by_owner : option string)
    (busy : bool) (now : Z) (dir : lock_dir) : bool :=
  match dir !! lock_file_path self with
  | None => false
  | Some f =>
      if busy then false
      else
        match f with
        | Undecodable => false
        | Decoded data =>
            match data !! file_path self with
            | Some info =>
                if live info now then
                  match by_owner with
                  | None => true
                  | Some o => bool_decide (li_owner_id info = o)
                  end
                else false
            | None => false
            end
        end
  end.

(** One value of the dictionary [get_active_locks] returns:
    [{"owner_id", "time", "expires_at", "exclusive"}]. *)
Record active_lock := ActiveLock {
  al_owner_id : string;
  al_time : Z;
  al_expires_at : Z;
  al_exclusive : bool
}.

Definition report (info : lock_info) : active_lock :=
  {| al_owner_id := li_owner_id info; al_time := li_time info;
     al_expires_at := expires_at info; al_exclusive := li_exclusive info |}.





End FileUtils.

(** ** Goal-graph store ([src/agents/tasker_agent.py]) *)

Module Tasker.
Import FileUtils.

(** A task of the Goal Graph: the JSON object
    [{id, name, priority, description, dependencies, status, owner}];
    a field is [None] when the key is absent. *)
Record task := Task {
  t_id : option string;
  t_name : option string;
  t_priority : option string;
  t_description : option string;
  t_dependencies : option (list string);
  t_status : option string;
  t_owner : option string
}.

(** The Goal Graph [{"tasks": [...]}]; [None] when it has no "tasks" key. *)
Record goal_graph := GoalGraph { tasks : option (list task) }.

(** [{"tasks": []}] *)
Definition empty_graph : goal_graph := {| tasks := Some [] |}.

(** The body of the loop of [_validate_goal_graph] for the task at index
    [i]: every absent key gets its default, present keys are left alone. *)
Definition fill_defaults (i : nat) (t : task) : task :=
  let id := default (pretty (i + 1)%nat) (t_id t) in
  {| t_id := Some id;
     t_name := Some (default ("Task " +:+ id) (t_name t));
     t_priority := Some (default "Medium" (t_priority t));
     t_description := Some (default "No description provided." (t_description t));
     t_dependencies := Some (default [] (t_dependencies t));
     t_status := Some (default "Not Started" (t_status t));
     t_owner := Some (default "Unassigned" (t_owner t)) |}.


(** What a file of the goal-graph directory holds: text that [json.load]
    rejects ([json.JSONDecodeError]), bytes that are not text in the
    encoding of [open] ([UnicodeDecodeError]), JSON nested deeper than the
    recursion limit ([RecursionError]), or the serialisation of a graph.
    [json.dump] and [json.load] are the library's; a value written by the
    first is read back by the second. *)
Inductive file_content :=
  | Garbage
  | NotUtf8
  | TooDeep
  | Json (g : goal_graph).

(** The part of the file system the store touches. *)
Record world := World {
  locks : lock_dir;
  files : gmap string file_content
}.

(** What one use of the [file_lock] context manager observes. *)
Record lock_use_env := LockUseEnv {
  on_acquire : acquire_env;
  release_busy : bool
}.

(** The agent, as far as the store is concerned. *)
Record TaskerAgent := MkTaskerAgent {
  id : string;
  goal_graph_dir : string
}.

Section Store.

(** Built-in [hash] on strings and the constant [FILE_LOCK_TIMEOUT] of
    [src.config.config]. *)
Variable py_hash : string → Z.
Variable FILE_LOCK_TIMEOUT : Z.

(** [with file_lock(path, owner, exclusive): body]: acquire in the [try],
    release in the [finally], on every way out. *)
Definition file_lock {A} (path owner : string) (exclusive : bool)
    (e : lock_use_env)
    (body : gmap string file_content → outcome A * gmap string file_content)
    (w : world) : outcome A * world :=
  let lock := FileLock_init py_hash path owner FILE_LOCK_TIMEOUT in
  let '(r, lock, dir) := acquire lock exclusive (on_acquire e) (locks w) in
  match r with
  | Raised x =>
      let '(_, _, dir) := release lock (release_busy e) dir in
      (Raised x, {| locks := dir; files := files w |})
  | Returned _ =>
      let '(res, fs) := body (files w) in
      let '(_, _, dir) := release lock (release_busy e) dir in
      (res, {| locks := dir; files := fs |})
  end.

(** [with open(path, 'w') as f: json.dump(goal_graph, f, indent=2)];
    [dir_exists] says whether the directory of [path] is there: in a
    missing directory [open] raises [FileNotFoundError], an [IOError], and
    nothing is written. *)
Definition dump_to (dir_exists : bool) (path : string) (g : goal_graph)
    (fs : gmap string file_content) : outcome unit * gmap string file_content :=
  if dir_exists then (Returned (), <[path := Json g]> fs)
  else (Raised IOError, fs).

(** [with open(path, 'r') as f: return json.load(f)] *)
Definition load_from (path : string)
    (fs : gmap string file_content) : outcome goal_graph * gmap string file_content :=
  match fs !! path with
  | None => (Raised IOError, fs)
  | Some Garbage => (Raised JSONDecodeError, fs)
  | Some NotUtf8 => (Raised UnicodeDecodeError, fs)
  | Some TooDeep => (Raised RecursionError, fs)
  | Some (Json g) => (Returned g, fs)
  end.

Definition snapshot_path (self : TaskerAgent) (timestamp : Z) : string :=
  goal_graph_dir self +:+ "/" +:+ ("goal_graph_" +:+ pretty timestamp +:+ ".json").

Definition path_of (self : TaskerAgent) (filename : string) : string :=
  goal_graph_dir self +:+ "/" +:+ filename.

(** [TaskerAgent._save_goal_graph]; [dir_mtime] is the modification time of
    the goal-graph directory, [None] when the directory does not exist.
    [attempt] is the body of the [try]; whatever it raises is caught by
    [except Exception], logged and dropped. *)
Definition _save_goal_graph (self : TaskerAgent) (g : goal_graph)
    (dir_mtime : option Z) (e1 e2 : lock_use_env) (w : world)
    : outcome unit * world :=
  let timestamp := default 0%Z dir_mtime in
  let file_path := snapshot_path self timestamp in
  let latest_path := path_of self "latest.json" in
  let dir_exists := bool_decide (is_Some dir_mtime) in
  let attempt :=
    match file_lock file_path (id self) true e1
            (dump_to dir_exists file_path g) w with
    | (Raised x, w) => (Raised x, w)
    | (Returned _, w) =>
        file_lock latest_path (id self) true e2
          (dump_to dir_exists latest_path g) w
    end in
  match attempt with
  | (Raised _, w) => (Returned (), w)
  | (Returned _, w) => (Returned (), w)
  end.

(** [TaskerAgent.load_goal_graph]: only [json.JSONDecodeError] and
    [IOError] are caught; anything else that is raised goes to the caller,
    after the [finally] of [file_lock]. *)
Definition load_goal_graph (self : TaskerAgent) (filename : string)
    (e : lock_use_env) (w : world) : outcome goal_graph * world :=
  let file_path := path_of self filename in
  match files w !! file_path with
  | None => (Returned empty_graph, w)
  | Some _ =>
      match file_lock file_path (id self) false e (load_from file_path) w with
      | (Raised JSONDecodeError, w) => (Returned empty_graph, w)
      | (Raised IOError, w) => (Returned empty_graph, w)
      | r => r
      end
  end.

End Store.

(** *** Reading a graph out of a free-text response *)

(** [s.find(c)] for a one-character [c]; [None] is -1. *)
Fixpoint find_char (c : ascii) (s : string) : option nat :=
  match s with
  | EmptyString => None
  | String a s' => if bool_decide (a = c) then Some 0 else S <$> find_char c s'
  end.

(** [s.rfind(c)] for a one-character [c]; [None] is -1. *)
Fixpoint rfind_char (c : ascii) (s : string) : option nat :=
  match s with
  | EmptyString => None
  | String a s' =>
      match rfind_char c s' with
      | Some i => Some (S i)
      | None => if bool_decide (a = c) then Some 0 else None
      end
  end.

(** [s[start:stop]] for indices that are not negative. *)
Definition slice (start stop : nat) (s : string) : string :=
  String.substring start (stop - start) s.

(** [s.replace(old, new)] for a non-empty [old]: the occurrences of [old]
    are found from left to right and do not overlap.  [skip] counts the
    characters of the current occurrence still to be passed over. *)
Fixpoint replace_from (old new : string) (skip : nat) (s : string) : string :=
  match s with
  | EmptyString => EmptyString
  | String c s' =>
      match skip with
      | S k => replace_from old new k s'
      | O =>
          if String.prefix old s
          then new +:+ replace_from old new (String.length old - 1) s'
          else String c (replace_from old new 0 s')
      end
  end.

Definition replace (old new s : string) : string := replace_from old new 0 s.

(** The double quote and the newline, as one-character strings. *)
Definition double_quote : string := String (ascii_of_nat 34) EmptyString.
Definition newline : string := String (ascii_of_nat 10) EmptyString.

(** [TaskerAgent._clean_json_string] *)
Definition _clean_json_string (json_str : string) : string :=
  let cleaned := replace "'" double_quote json_str in
  let cleaned := replace newline " " cleaned in
  let cleaned := replace ",}" "}" cleaned in
  let cleaned := replace ",]" "]" cleaned in
  cleaned.

Section Responses.

(** [json.loads], typed at graphs; [None] is [json.JSONDecodeError]. *)
Variable json_loads : string → option goal_graph.

(** [TaskerAgent._extract_json] *)
Definition _extract_json (text : string) : goal_graph :=
  match find_char "{"%char text, rfind_char "}"%char text with
  | Some start_idx, Some end_idx =>
      let json_str := slice start_idx (end_idx + 1) text in
      match json_loads json_str with
      | Some g => g
      | None =>
          match json_loads (_clean_json_string json_str) with
          | Some g => g
          | None => empty_graph
          end
      end
  | _, _ => empty_graph
  end.

End Responses.

End Tasker.

(** ** Coordinator ([src/utils/agent_manager.py]) *)

Module AgentManager.
Import Tasker.

(** [AgentManager]: [self.state], the coder agents (by id), the reviewer
    (when created) and the Goal Graph.  Keys of [tasks_assigned] are what
    [task.get("id")] returns, so [None] is a possible key. *)
Record manager := Manager {
  current_stage : string;
  goal_graph_approved : bool;
  tasks_assigned : gmap (option string) string;
  tasks_completed : gmap string string;
  files_modified : gset string;
  coder_agents : list string;
  qualitator_agent : option string;
  goal_graph : option goal_graph
}.

(** [priority_map.get(p, 0)] with [{"High": 3, "Medium": 2, "Low": 1}] *)
Definition priority_rank (p : string) : Z :=
  if bool_decide (p = "High") then 3
  else if bool_decide (p = "Medium") then 2
  else if bool_decide (p = "Low") then 1
  else 0.

(** The sort key of line 404:
    [(priority_map.get(t.get("priority", "Medium"), 0),
      -len(t.get("dependencies", [])))] *)
Definition sort_key (t : task) : Z * Z :=
  (priority_rank (default "Medium" (t_priority t)),
   (- Z.of_nat (length (default [] (t_dependencies t))))%Z).

(** [a <= b] on pairs, as Python compares tuples. *)
Definition key_le (a b : Z * Z) : bool :=
  (a.1 <? b.1)%Z || ((a.1 =? b.1)%Z && (a.2 <=? b.2)%Z).

(** [list.sort(key=...)] sorts in ascending order of the key and is stable;
    the result is the one of a stable insertion sort. *)
Fixpoint insert_by {A} (key : A → Z * Z) (x : A) (l : list A) : list A :=
  match l with
  | [] => [x]
  | y :: l' =>
      if key_le (key x) (key y) then x :: y :: l'
      else y :: insert_by key x l'
  end.

Definition sort_by {A} (key : A → Z * Z) (l : list A) : list A :=
  foldr (insert_by key) [] l.

(** Lines 391-396: every dependency is recorded as "Completed". *)
Definition all_deps_completed (completed : gmap string string)
    (dependencies : list string) : bool :=
  forallb (λ dep_id, bool_decide (completed !! dep_id = Some "Completed"))
          dependencies.

(** Lines 382-400: is the task appended to [available_tasks]? *)
Definition is_available (s : manager) (t : task) : bool :=
  let task_id := t_id t in
  let status := default "Not Started" (t_status t) in
  let dependencies := default [] (t_dependencies t) in
  if bool_decide (is_Some (tasks_assigned s !! task_id))
     || bool_decide (status = "Completed")
  then false
  else bool_decide (dependencies = [])
       || all_deps_completed (tasks_completed s) dependencies.

(** [available_tasks] holds references to the dictionaries of the graph: an
    element is the position of the task in the graph with the task read
    there. *)
Definition available_tasks (s : manager) (ts : list task) : list (nat * task) :=
  filter (λ it, is_available s it.2) (imap pair ts).

(** [task["owner"] = agent_id; task["status"] = "In Progress"] *)
Definition take (agent_id : string) (t : task) : task :=
  {| t_id := t_id t; t_name := t_name t; t_priority := t_priority t;
     t_description := t_description t; t_dependencies := t_dependencies t;
     t_status := Some "In Progress"; t_owner := Some agent_id |}.

(** What the loop of lines 410-419 updates. *)
Record assign_state := AssignState {
  assignments : gmap string (list (option string));
  assigned : gmap (option string) string;
  graph_tasks : list task
}.

(** [self.coder_agents[i % len(self.coder_agents)].id]; the pool is
    [a0 :: pool'], never empty here. *)
Definition agent_at (a0 : string) (pool' : list string) (i : nat) : string :=
  nth (i mod length (a0 :: pool')) (a0 :: pool') a0.

Definition assign_step (a0 : string) (pool' : list string) (i : nat)
    (it : nat * task) (st : assign_state) : assign_state :=
  let agent_id := agent_at a0 pool' i in
  let task_id := t_id it.2 in
  {| assignments := alter (λ l, l ++ [task_id]) agent_id (assignments st);
     assigned := <[task_id := agent_id]> (assigned st);
     graph_tasks := alter (take agent_id) it.1 (graph_tasks st) |}.

(** [for i, task in enumerate(available_tasks)], from index [i] on. *)
Fixpoint assign_loop (a0 : string) (pool' : list string) (i : nat)
    (avail : list (nat * task)) (st : assign_state) : assign_state :=
  match avail with
  | [] => st
  | it :: rest => assign_loop a0 pool' (S i) rest (assign_step a0 pool' i it st)
  end.

(** [{agent.id: [] for agent in self.coder_agents}] *)
Definition no_assignments (pool : list string) : gmap string (list (option string)) :=
  list_to_map ((λ a, (a, [])) <$> pool).

(** [AgentManager.assign_tasks] *)
Definition assign_tasks (s : manager)
    : outcome (gmap string (list (option string))) * manager :=
  match coder_agents s with
  | [] => (Raised (ValueError "No Coder agents are initialized. Call create_agents() first."), s)
  | a0 :: pool' =>
      match goal_graph s with
      | None => (Raised (ValueError "No Goal Graph exists. Call create_goal_graph() first."), s)
      | Some g =>
          if negb (goal_graph_approved s) then
            (Raised (ValueError "Goal Graph is not approved. Call approve_goal_graph() first."), s)
          else
            let ts := default [] (tasks g) in
            let avail := sort_by (λ it, sort_key it.2) (available_tasks s ts) in
            let st := assign_loop a0 pool' 0 avail
                        {| assignments := no_assignments (a0 :: pool');
                           assigned := tasks_assigned s;
                           graph_tasks := ts |} in
            (Returned (assignments st),
             {| current_stage := "tasks_assigned";
                goal_graph_approved := goal_graph_approved s;
                tasks_assigned := assigned st;
                tasks_completed := tasks_completed s;
                files_modified := files_modified s;
                coder_agents := coder_agents s;
                qualitator_agent := qualitator_agent s;
                goal_graph := Some {| tasks := (λ _, graph_tasks st) <$> tasks g |} |})
      end
  end.

(** [str(t.get("id"))] *)
Definition py_str (o : option string) : string := default "None" o.

(** The first task [t] of the graph with [str(t.get("id")) == str(task_id)],
    with its position. *)
Definition find_task (task_id : string) (ts : list task) : option (nat * task) :=
  list_find (λ t, py_str (t_id t) = task_id) ts.

Definition set_status (status : string) (t : task) : task :=
  {| t_id := t_id t; t_name := t_name t; t_priority := t_priority t;
     t_description := t_description t; t_dependencies := t_dependencies t;
     t_status := Some status; t_owner := t_owner t |}.

(** The state after [self.state["tasks_completed"][task_id] = status],
    [task["status"] = status] for the task at position [i] (when [i] is
    given), the files added to [files_modified] and the stage set. *)
Definition record_status (s : manager) (task_id : string) (pos : option nat)
    (status stage : string) (modified : list string) : manager :=
  {| current_stage := stage;
     goal_graph_approved := goal_graph_approved s;
     tasks_assigned := tasks_assigned s;
     tasks_completed := <[task_id := status]> (tasks_completed s);
     files_modified := list_to_set modified ∪ files_modified s;
     coder_agents := coder_agents s;
     qualitator_agent := qualitator_agent s;
     goal_graph :=
       match pos, goal_graph s with
       | Some i, Some g =>
           Some {| tasks := alter (set_status status) i <$> tasks g |}
       | _, g => g
       end |}.

(** [self.state["current_stage"] = stage] *)
Definition set_stage (stage : string) (s : manager) : manager :=
  {| current_stage := stage;
     goal_graph_approved := goal_graph_approved s;
     tasks_assigned := tasks_assigned s;
     tasks_completed := tasks_completed s;
     files_modified := files_modified s;
     coder_agents := coder_agents s;
     qualitator_agent := qualitator_agent s;
     goal_graph := goal_graph s |}.

(** [AgentManager.implement_task]; [report] is the call
    [agent.run(task, file_access)] of the coder agent: it returns a report,
    of which [implementation_results.get("files_modified", [])] is given,
    or it raises.  The stage is written before the call. *)
Definition implement_task (s : manager) (task_id : string)
    (report : outcome (list string)) : outcome unit * manager :=
  match tasks_assigned s !! Some task_id with
  | None => (Raised (ValueError ("Task " +:+ task_id +:+ " is not assigned. Call assign_tasks() first.")), s)
  | Some agent_id =>
      if bool_decide (agent_id ∈ coder_agents s) then
        match goal_graph s with
        | None => (Raised AttributeError, s)
        | Some g =>
            match find_task task_id (default [] (tasks g)) with
            | None => (Raised (ValueError ("No task found with ID " +:+ task_id +:+ " in the Goal Graph")), s)
            | Some (i, _) =>
                let s := set_stage ("implementing_task_" +:+ task_id) s in
                match report with
                | Raised e => (Raised e, s)
                | Returned modified =>
                    (Returned (),
                     record_status s task_id (Some i) "Needs Review"
                       ("task_" +:+ task_id +:+ "_implemented") modified)
                end
            end
        end
      else (Raised (ValueError ("No Coder agent found with ID " +:+ agent_id)), s)
  end.

(** [AgentManager.review_task]; [report] is the call
    [self.qualitator_agent.run(...)]: it returns a report, of which
    [review_results.get("approved", False)] is given, or it raises. *)
Definition review_task (s : manager) (task_id : string)
    (report : outcome bool) : outcome bool * manager :=
  match qualitator_agent s with
  | None => (Raised (ValueError "Qualitator agent is not initialized. Call create_agents() first."), s)
  | Some _ =>
      if bool_decide (tasks_completed s !! task_id ≠ Some "Needs Review") then
        (Raised (ValueError ("Task " +:+ task_id +:+ " is not ready for review.")), s)
      else
        match goal_graph s with
        | None => (Raised AttributeError, s)
        | Some g =>
            match find_task task_id (default [] (tasks g)) with
            | None => (Raised (ValueError ("No task found with ID " +:+ task_id +:+ " in the Goal Graph")), s)
            | Some (i, _) =>
                let s := set_stage ("reviewing_task_" +:+ task_id) s in
                match report with
                | Raised e => (Raised e, s)
                | Returned approved =>
                    (Returned approved,
                     if approved then
                       record_status s task_id (Some i) "Completed"
                         ("task_" +:+ task_id +:+ "_completed") []
                     else
                       record_status s task_id (Some i) "Needs Fixes"
                         ("task_" +:+ task_id +:+ "_needs_fixes") [])
                end
            end
        end
  end.

(** [AgentManager.fix_task]; [report] is the call
    [agent.fix_issues(issues, file_access)]: it returns a report, of which
    [fix_results.get("files_modified", [])] is given, or it raises. *)
Definition fix_task (s : manager) (task_id : string)
    (report : outcome (list string)) : outcome unit * manager :=
  if bool_decide (tasks_completed s !! task_id ≠ Some "Needs Fixes") then
    (Raised (ValueError ("Task " +:+ task_id +:+ " does not need fixes.")), s)
  else
    match tasks_assigned s !! Some task_id with
    | None => (Raised (KeyError task_id), s)
    | Some agent_id =>
        if bool_decide (agent_id ∈ coder_agents s) then
          let s := set_stage ("fixing_task_" +:+ task_id) s in
          match report with
          | Raised e => (Raised e, s)
          | Returned modified =>
              match goal_graph s with
              | None =>
                  (Raised AttributeError,
                   record_status s task_id None "Needs Review"
                     ("fixing_task_" +:+ task_id) modified)
              | Some g =>
                  (Returned (),
                   record_status s task_id
                     (fst <$> find_task task_id (default [] (tasks g)))
                     "Needs Review"
                     ("task_" +:+ task_id +:+ "_fixes_implemented") modified)
              end
          end
        else (Raised (ValueError ("No Coder agent found with ID " +:+ agent_id)), s)
    end.

(** [AgentManager.verify_fixes]; [report] is the call
    [self.qualitator_agent.verify_fix(...)]: it returns a report, of which
    [verification_results.get("all_fixed", False)] is given, or it raises. *)
Definition verify_fixes (s : manager) (task_id : string)
    (report : outcome bool) : outcome bool * manager :=
  match qualitator_agent s with
  | None => (Raised (ValueError "Qualitator agent is not initialized. Call create_agents() first."), s)
  | Some _ =>
      if bool_decide (tasks_completed s !! task_id ≠ Some "Needs Review") then
        (Raised (ValueError ("Task " +:+ task_id +:+ " is not ready for verification.")), s)
      else
        match goal_graph s with
        | None => (Raised AttributeError, s)
        | Some g =>
            match find_task task_id (default [] (tasks g)) with
            | None => (Raised (ValueError ("No task found with ID " +:+ task_id +:+ " in the Goal Graph")), s)
            | Some (i, _) =>
                let s := set_stage ("verifying_fixes_for_task_" +:+ task_id) s in
                match report with
                | Raised e => (Raised e, s)
                | Returned all_fixed =>
                    (Returned all_fixed,
                     if all_fixed then
                       record_status s task_id (Some i) "Completed"
                         ("task_" +:+ task_id +:+ "_completed") []
                     else
                       record_status s task_id (Some i) "Needs Fixes"
                         ("task_" +:+ task_id +:+ "_needs_fixes") [])
                end
            end
        end
  end.

(** [AgentManager._load_latest_goal_graph]: "latest.json" of the goal-graph
    directory, read without any lock; [None] when the file is missing or
    anything is raised while reading it ([except Exception]). *)
Definition _load_latest_goal_graph (goal_graph_dir : string)
    (fs : gmap string file_content) : option Tasker.goal_graph :=
  match fs !! (goal_graph_dir +:+ "/" +:+ "latest.json") with
  | Some (Json g) => Some g
  | Some Garbage | Some NotUtf8 | Some TooDeep => None
  | None => None
  end.

End AgentManager.

(** ** The pipeline around the scheduler ([src/utils/agent_manager.py]) *)

Module Pipeline.
Import Tasker AgentManager.

(** The rest of [AgentManager]: the PRD, the two flags of [self.state]
    about it and about the graph, the other agents (present or [None]) and
    the files of the PRD directory, by name. *)
Record pipeline := MkPipeline {
  core : manager;
  prd : option string;
  prd_created : bool;
  goal_graph_created : bool;
  requirementer_agent : option string;
  tasker_agent : option string;
  goaler_agent : option string;
  communicator_agent : option string;
  prd_dir : gmap string string
}.

(** [self.state["goal_graph_approved"] = True] *)
Definition set_approved (s : manager) : manager :=
  {| current_stage := current_stage s;
     goal_graph_approved := true;
     tasks_assigned := tasks_assigned s;
     tasks_completed := tasks_completed s;
     files_modified := files_modified s;
     coder_agents := coder_agents s;
     qualitator_agent := qualitator_agent s;
     goal_graph := goal_graph s |}.

(** [self.goal_graph = g] *)
Definition set_goal_graph (g : Tasker.goal_graph) (s : manager) : manager :=
  {| current_stage := current_stage s;
     goal_graph_approved := goal_graph_approved s;
     tasks_assigned := tasks_assigned s;
     tasks_completed := tasks_completed s;
     files_modified := files_modified s;
     coder_agents := coder_agents s;
     qualitator_agent := qualitator_agent s;
     goal_graph := Some g |}.

Definition with_core (c : manager) (p : pipeline) : pipeline :=
  {| core := c; prd := prd p; prd_created := prd_created p;
     goal_graph_created := goal_graph_created p;
     requirementer_agent := requirementer_agent p;
     tasker_agent := tasker_agent p; goaler_agent := goaler_agent p;
     communicator_agent := communicator_agent p; prd_dir := prd_dir p |}.

(** The carriage return and the line feed. *)
Definition CR : ascii := ascii_of_nat 13.
Definition LF : ascii := ascii_of_nat 10.

(** What [f.read()] gives for a file opened with [open(path, 'r')]: text
    mode with universal newlines, where "\r\n" and a "\r" alone both come
    out as "\n". *)
Fixpoint universal_newlines (s : string) : string :=
  match s with
  | EmptyString => EmptyString
  | String c s' =>
      if bool_decide (c = CR) then
        match s' with
        | String c' s'' =>
            if bool_decide (c' = LF) then String LF (universal_newlines s'')
            else String LF (universal_newlines s')
        | EmptyString => String LF EmptyString
        end
      else String c (universal_newlines s')
  end.

(** [AgentManager._save_prd]; [dir_mtime] is the modification time of the
    PRD directory, [None] when the directory does not exist: then the first
    [open(file_path, 'w')] raises, which [except Exception] logs and drops,
    and nothing is written.  On this platform ([fcntl]) a text is written
    as it is. *)
Definition _save_prd (text : string) (dir_mtime : option Z)
    (files : gmap string string) : gmap string string :=
  let timestamp := default 0%Z dir_mtime in
  let filename := "prd_" +:+ pretty timestamp +:+ ".md" in
  if bool_decide (is_Some dir_mtime)
  then <["latest.md" := text]> (<[filename := text]> files)
  else files.

(** [AgentManager._load_latest_prd] *)
Definition _load_latest_prd (files : gmap string string) : option string :=
  universal_newlines <$> files !! "latest.md".

(** [AgentManager.__init__]: nothing assigned, no agent created, the PRD
    and the graph as the files have them. *)
Definition init (prd_files : gmap string string) (goal_graph_dir : string)
    (graph_files : gmap string file_content) : pipeline :=
  let loaded_prd := _load_latest_prd prd_files in
  let loaded_graph := _load_latest_goal_graph goal_graph_dir graph_files in
  {| core := {| current_stage := "initialization";
                goal_graph_approved := false;
                tasks_assigned := ∅;
                tasks_completed := ∅;
                files_modified := ∅;
                coder_agents := [];
                qualitator_agent := None;
                goal_graph := loaded_graph |};
     prd := loaded_prd;
     prd_created := bool_decide (is_Some loaded_prd);
     goal_graph_created := bool_decide (is_Some loaded_graph);
     requirementer_agent := None; tasker_agent := None;
     goaler_agent := None; communicator_agent := None;
     prd_dir := prd_files |}.

Definition not_initialized (agent : string) : exn :=
  ValueError (agent +:+ " agent is not initialized. Call create_agents() first.").
Definition no_prd : exn :=
  ValueError "No PRD exists. Call generate_prd() first.".
Definition no_goal_graph : exn :=
  ValueError "No Goal Graph exists. Call create_goal_graph() first.".

(** [self.state["current_stage"] = stage], on the whole object. *)
Definition at_stage (stage : string) (p : pipeline) : pipeline :=
  with_core (set_stage stage (core p)) p.

(** [self.prd = text; self._save_prd(self.prd)] *)
Definition store_prd (text : string) (dir_mtime : option Z)
    (p : pipeline) : pipeline :=
  {| core := core p;
     prd := Some text;
     prd_created := prd_created p;
     goal_graph_created := goal_graph_created p;
     requirementer_agent := requirementer_agent p;
     tasker_agent := tasker_agent p; goaler_agent := goaler_agent p;
     communicator_agent := communicator_agent p;
     prd_dir := _save_prd text dir_mtime (prd_dir p) |}.

(** [self.state["prd_created"] = True] *)
Definition set_prd_created (p : pipeline) : pipeline :=
  {| core := core p; prd := prd p; prd_created := true;
     goal_graph_created := goal_graph_created p;
     requirementer_agent := requirementer_agent p;
     tasker_agent := tasker_agent p; goaler_agent := goaler_agent p;
     communicator_agent := communicator_agent p; prd_dir := prd_dir p |}.

(** [self.state["goal_graph_created"] = True] *)
Definition set_goal_graph_created (p : pipeline) : pipeline :=
  {| core := core p; prd := prd p; prd_created := prd_created p;
     goal_graph_created := true;
     requirementer_agent := requirementer_agent p;
     tasker_agent := tasker_agent p; goaler_agent := goaler_agent p;
     communicator_agent := communicator_agent p; prd_dir := prd_dir p |}.

(** In each of the six operations below the guards come first and raise
    with the object untouched; then the stage is written; then the agent is
    called, and [report] is that call: what it returns, or the exception it
    ends with, which goes to the caller. *)

(** [AgentManager.generate_prd]; [report] is
    [self.requirementer_agent.run(user_request)]. *)
Definition generate_prd (p : pipeline) (report : outcome string)
    (dir_mtime : option Z) : outcome string * pipeline :=
  match requirementer_agent p with
  | None => (Raised (not_initialized "Requirementer"), p)
  | Some _ =>
      let p := at_stage "generating_prd" p in
      match report with
      | Raised e => (Raised e, p)
      | Returned text =>
          (Returned text,
           at_stage "prd_generated"
             (set_prd_created (store_prd text dir_mtime p)))
      end
  end.

(** [AgentManager.refine_prd]; [report] is
    [self.requirementer_agent.refine_requirements(self.prd, additional_input)].
    [prd_created] is not written here. *)
Definition refine_prd (p : pipeline) (report : outcome string)
    (dir_mtime : option Z) : outcome string * pipeline :=
  match requirementer_agent p with
  | None => (Raised (not_initialized "Requirementer"), p)
  | Some _ =>
      match prd p with
      | None => (Raised no_prd, p)
      | Some _ =>
          let p := at_stage "refining_prd" p in
          match report with
          | Raised e => (Raised e, p)
          | Returned text =>
              (Returned text,
               at_stage "prd_refined" (store_prd text dir_mtime p))
          end
      end
  end.

(** [AgentManager.create_goal_graph]; [report] is
    [self.tasker_agent.run(self.prd)]. *)
Definition create_goal_graph (p : pipeline) (report : outcome Tasker.goal_graph)
    : outcome Tasker.goal_graph * pipeline :=
  match tasker_agent p with
  | None => (Raised (not_initialized "Tasker"), p)
  | Some _ =>
      match prd p with
      | None => (Raised no_prd, p)
      | Some _ =>
          let p := at_stage "creating_goal_graph" p in
          match report with
          | Raised e => (Raised e, p)
          | Returned g =>
              (Returned g,
               at_stage "goal_graph_created"
                 (set_goal_graph_created
                    (with_core (set_goal_graph g (core p)) p)))
          end
      end
  end.

(** [AgentManager.validate_goal_graph]; [report] is
    [self.goaler_agent.run(self.prd, self.goal_graph)], of whose result
    [validation_results.get("approved", False)] is given. *)
Definition validate_goal_graph (p : pipeline) (report : outcome bool)
    : outcome bool * pipeline :=
  match goaler_agent p with
  | None => (Raised (not_initialized "Goaler"), p)
  | Some _ =>
      match prd p with
      | None => (Raised no_prd, p)
      | Some _ =>
          match goal_graph (core p) with
          | None => (Raised no_goal_graph, p)
          | Some _ =>
              let p := at_stage "validating_goal_graph" p in
              match report with
              | Raised e => (Raised e, p)
              | Returned approved =>
                  let p := at_stage "goal_graph_validated" p in
                  (Returned approved,
                   if approved then with_core (set_approved (core p)) p else p)
              end
          end
      end
  end.

(** [AgentManager.update_goal_graph]; [report] is
    [self.tasker_agent.update_goal_graph(self.goal_graph, updates)]. *)
Definition update_goal_graph (p : pipeline) (report : outcome Tasker.goal_graph)
    : outcome Tasker.goal_graph * pipeline :=
  match tasker_agent p with
  | None => (Raised (not_initialized "Tasker"), p)
  | Some _ =>
      match goal_graph (core p) with
      | None => (Raised no_goal_graph, p)
      | Some _ =>
          let p := at_stage "updating_goal_graph" p in
          match report with
          | Raised e => (Raised e, p)
          | Returned g =>
              (Returned g,
               at_stage "goal_graph_updated"
                 (with_core (set_goal_graph g (core p)) p))
          end
      end
  end.

(** [AgentManager.approve_goal_graph]; [report] is
    [self.goaler_agent.approve_goal_graph(self.goal_graph)], of whose
    result [approval_doc.get("approved", False)] is given. *)
Definition approve_goal_graph (p : pipeline) (report : outcome bool)
    : outcome bool * pipeline :=
  match goaler_agent p with
  | None => (Raised (not_initialized "Goaler"), p)
  | Some _ =>
      match goal_graph (core p) with
      | None => (Raised no_goal_graph, p)
      | Some _ =>
          let p := at_stage "approving_goal_graph" p in
          match report with
          | Raised e => (Raised e, p)
          | Returned approved =>
              (Returned approved,
               if approved
               then at_stage "goal_graph_approved"
                      (with_core (set_approved (core p)) p)
               else at_stage "goal_graph_approval_failed" p)
          end
      end
  end.

End Pipeline.

(** * Notions of the specification and sample data *)

Module LockSpec.
Import FileUtils.

(** The dictionary a method works on once the lock file is open. *)
Definition held_data (self : FileLock) (dir : lock_dir) : gmap string lock_info :=
  default ∅ (load_data <$> dir !! lock_file_path self).

(** The entry [acquire] writes. *)
Definition fresh_record (self : FileLock) (exclusive : bool) (e : acquire_env)
    : lock_info :=
  {| li_owner_id := owner_id self; li_time := now_stamp e;
     li_timeout := timeout self; li_exclusive := exclusive |}.

(** The specification's condition for contention: a live record of another
    owner, and an exclusive request or an exclusive record. *)
Definition live_foreign_conflict (self : FileLock) (exclusive : bool)
    (now : Z) (dir : lock_dir) : Prop :=
  ∃ info, stored_record self dir = Some info ∧ live info now = true ∧
          li_owner_id info ≠ owner_id self ∧
          (exclusive = true ∨ li_exclusive info = true).

(** The claim of the specification about [acquire], at one call. *)
Definition raises_exactly_on_conflict (self : FileLock) (exclusive : bool)
    (e : acquire_env) (dir : lock_dir) : Prop :=
  is_FileLockException (acquire self exclusive e dir).1.1 ↔
  live_foreign_conflict self exclusive (now_check e) dir.

(** Sample data: two agents and a third party on one resource. *)
Definition res_hash : string → Z := λ p, Z.of_nat (String.length p).
Definition lock_of (owner : string) : FileLock :=
  FileLock_init res_hash "/data/goal_graphs/latest.json" owner 30.
Definition at_second (busy : bool) (t : Z) : acquire_env :=
  {| flock_busy := busy; now_check := seconds t; now_stamp := seconds t |}.

(** The directory after "coder-1" took the resource at second 0. *)
Definition held_by_coder1 (exclusive : bool) : lock_dir :=
  (acquire (lock_of "coder-1") exclusive (at_second false 0) ∅).2.


(** The filter [by_owner] of [is_locked]. *)
Definition owner_matches (by_owner : option string) (owner : string) : bool :=
  match by_owner with
  | None => true
  | Some o => bool_decide (owner = o)
  end.

End LockSpec.

Module StoreSpec.
Import FileUtils LockSpec Tasker.

(** The lock object [file_lock] builds for a file of the agent. *)
Definition lock_for (py_hash : string → Z) (tmo : Z) (self : TaskerAgent)
    (path : string) : FileLock :=
  FileLock_init py_hash path (id self) tmo.

(** The lock can be obtained: the lock file is not busy and no live record
    of another owner conflicts with the request. *)
Definition obtainable (l : FileLock) (exclusive : bool) (e : acquire_env)
    (dir : lock_dir) : Prop :=
  flock_busy e = false ∧ ¬ live_foreign_conflict l exclusive (now_check e) dir.

(** The lock directory after [acquire] and the [release] of the [finally]. *)
Definition after_use (l : FileLock) (exclusive : bool) (e : lock_use_env)
    (dir : lock_dir) : lock_dir :=
  (release (acquire l exclusive (on_acquire e) dir).1.2 (release_busy e)
           (acquire l exclusive (on_acquire e) dir).2).2.



(** Sample data. *)
Definition tasker : TaskerAgent :=
  {| id := "tasker-1"; goal_graph_dir := "/data/goal_graphs" |}.

Definition calm (t : Z) : lock_use_env :=
  {| on_acquire := at_second false t; release_busy := false |}.

Definition bare_task (name : string) : task :=
  {| t_id := Some name; t_name := None; t_priority := None;
     t_description := None; t_dependencies := None; t_status := None;
     t_owner := None |}.

Definition bare_graph : goal_graph := {| tasks := Some [bare_task "A"] |}.

Definition empty_world : world := {| locks := ∅; files := ∅ |}.

(** "latest.json" is there, unreadable, and "coder-1" took it exclusively
    at second 0 for 30 seconds. *)
Definition contended_world : world :=
  {| locks := held_by_coder1 true;
     files := {[ "/data/goal_graphs/latest.json" := Garbage ]} |}.


(** Does the character occur in the string? *)
Fixpoint has_char (c : ascii) (s : string) : bool :=
  match s with
  | EmptyString => false
  | String a s' => bool_decide (a = c) || has_char c s'
  end.

(** Does [old] occur in [s], at any position? *)
Fixpoint occurs (old s : string) : bool :=
  String.prefix old s ||
  match s with
  | EmptyString => false
  | String _ s' => occurs old s'
  end.

(** A sample [json.loads]: it knows the empty object only. *)
Definition toy_loads (s : string) : option goal_graph :=
  if bool_decide (s = "{}") then Some {| tasks := None |} else None.

End StoreSpec.

Module SchedulerSpec.
Import Tasker AgentManager.

(** The tasks of the coordinator's graph, [self.goal_graph.get("tasks", [])]. *)
Definition tasks_of (s : manager) : list task :=
  default [] (goal_graph s ≫= tasks).

(** The ready-set condition in the words of the specification: the status
    is neither "In Progress" nor "Completed", and every dependency id is
    completed. *)
Definition qualifies (s : manager) (t : task) : Prop :=
  default "Not Started" (t_status t) ≠ "In Progress" ∧
  default "Not Started" (t_status t) ≠ "Completed" ∧
  ∀ d, d ∈ default [] (t_dependencies t) →
       tasks_completed s !! d = Some "Completed".

(** The condition the code tests. *)
Definition selectable (s : manager) (t : task) : Prop :=
  tasks_assigned s !! t_id t = None ∧
  default "Not Started" (t_status t) ≠ "Completed" ∧
  ∀ d, d ∈ default [] (t_dependencies t) →
       tasks_completed s !! d = Some "Completed".

(** Round-robin: the ids of the tasks at the positions [i], [i+1], ... of
    the sorted list that fall to worker [w]. *)
Fixpoint share (a0 : string) (pool' : list string) (w : string) (i : nat)
    (avail : list (nat * task)) : list (option string) :=
  match avail with
  | [] => []
  | it :: rest =>
      (if bool_decide (agent_at a0 pool' i = w) then [t_id it.2] else [])
      ++ share a0 pool' w (S i) rest
  end.

(** Everything an assignment hands out, over all workers. *)
Definition all_assigned (a : gmap string (list (option string)))
    : list (option string) :=
  concat (map_to_list a).*2.

(** Sample data. *)
Definition new_task (name priority : string) (deps : list string) : task :=
  {| t_id := Some name; t_name := Some name; t_priority := Some priority;
     t_description := Some ""; t_dependencies := Some deps;
     t_status := Some "Not Started"; t_owner := Some "Unassigned" |}.

Definition manager_of (pool : list string) (ts : list task) : manager :=
  {| current_stage := "goal_graph_approved";
     goal_graph_approved := true;
     tasks_assigned := ∅;
     tasks_completed := ∅;
     files_modified := ∅;
     coder_agents := pool;
     qualitator_agent := Some "qualitator-1";
     goal_graph := Some {| tasks := Some ts |} |}.

(** One worker; a High, a Medium and a Low task, all ready. *)
Definition three_priorities : manager :=
  manager_of ["coder-1"]
    [new_task "H" "High" []; new_task "M" "Medium" []; new_task "L" "Low" []].

(** The scenario of the specification: A, B after A, C after A; two
    workers. *)
Definition abc : manager :=
  manager_of ["coder-1"; "coder-2"]
    [new_task "A" "Medium" []; new_task "B" "Medium" ["A"];
     new_task "C" "Medium" ["A"]].

(** ... after A was assigned, implemented and approved by the review. *)
Definition abc_after_A : manager :=
  (review_task
     (implement_task (assign_tasks abc).2 "A" (Returned ["a.py"])).2
     "A" (Returned true)).2.

(** One task, assigned and implemented once; no review, no fix yet. *)
Definition first_pass : manager :=
  (implement_task
     (assign_tasks (manager_of ["coder-1"] [new_task "A" "High" []])).2
     "A" (Returned ["a.py"])).2.

(** The task A as it stands in [first_pass]. *)
Definition implemented_A : task :=
  {| t_id := Some "A"; t_name := Some "A"; t_priority := Some "High";
     t_description := Some ""; t_dependencies := Some [];
     t_status := Some "Needs Review"; t_owner := Some "coder-1" |}.

(** What the first [assign_tasks] of the scenario returns. *)
Definition abc_first : gmap string (list (option string)) :=
  {[ "coder-1" := [Some "A"]; "coder-2" := [] ]}.

(** The rank of a task by its priority: "Low" 1, "Medium" 2, "High" 3,
    any other priority 0, and 2 for a task without a priority. *)
Definition rank_of (t : task) : Z :=
  match t_priority t with
  | None => 2
  | Some p =>
      if decide (p = "Low") then 1
      else if decide (p = "Medium") then 2
      else if decide (p = "High") then 3
      else 0
  end.

(** The number of dependencies of a task, none when the key is absent. *)
Definition deps_of (t : task) : nat :=
  match t_dependencies t with
  | None => 0
  | Some deps => length deps
  end.

(** [t1] may stand before [t2] when the ready tasks are dealt out: its rank
    is smaller, or the ranks are equal and it has at least as many
    dependencies. *)
Definition before_in_order (t1 t2 : task) : Prop :=
  (rank_of t1 < rank_of t2)%Z ∨
  (rank_of t1 = rank_of t2 ∧ deps_of t2 ≤ deps_of t1).

(** Round-robin in the words of the specification: of the tasks in the
    order [order], worker [w] gets those at the positions [i] with
    [pool[i mod len(pool)] = w], in that order; the list holds their
    ids. *)
Definition dealt_to (pool : list string) (w : string) (order : list task)
    : list (option string) :=
  (λ it : nat * task, t_id it.2) <$>
    filter (λ it : nat * task, pool !! (it.1 mod length pool) = Some w)
           (imap pair order).

(** [t'] is [t] taken by worker [w]: status "In Progress", owner [w],
    everything else as in [t]. *)
Definition taken_by (w : string) (t t' : task) : Prop :=
  t_status t' = Some "In Progress" ∧ t_owner t' = Some w ∧
  t_id t' = t_id t ∧ t_name t' = t_name t ∧ t_priority t' = t_priority t ∧
  t_description t' = t_description t ∧
  t_dependencies t' = t_dependencies t.

(** [s'] is [s] but for the stage. *)
Definition only_stage_differs (s s' : manager) : Prop :=
  goal_graph_approved s' = goal_graph_approved s ∧
  tasks_assigned s' = tasks_assigned s ∧
  tasks_completed s' = tasks_completed s ∧
  files_modified s' = files_modified s ∧
  coder_agents s' = coder_agents s ∧
  qualitator_agent s' = qualitator_agent s ∧
  goal_graph s' = goal_graph s.

(** The operation ended by raising [ValueError]. *)
Definition is_ValueError {A} (r : outcome A) : Prop :=
  match r with
  | Raised (ValueError _) => True
  | _ => False
  end.

(** The status of the task that the operations on [task_id] work on: the
    first task of the graph whose id prints as [task_id]. *)
Definition graph_status (s : manager) (task_id : string) : option string :=
  find_task task_id (tasks_of s) ≫= λ it, t_status it.2.

(** What the second [assign_tasks] of the scenario returns. *)
Definition abc_second : gmap string (list (option string)) :=
  {[ "coder-1" := [Some "B"]; "coder-2" := [Some "C"] ]}.

(** The operations on [task_id] find what they look up: a reviewer, the
    worker the task is assigned to, the graph and the task in it. *)
Definition workable (s : manager) (task_id : string) : Prop :=
  is_Some (qualitator_agent s) ∧
  (∃ agent_id, tasks_assigned s !! Some task_id = Some agent_id ∧
               agent_id ∈ coder_agents s) ∧
  is_Some (goal_graph s) ∧
  is_Some (find_task task_id (tasks_of s)).

(** [status] is what both records say about the task: [tasks_completed]
    and the task of the graph. *)
Definition status_is (s : manager) (task_id status : string) : Prop :=
  tasks_completed s !! task_id = Some status ∧
  graph_status s task_id = Some status.

End SchedulerSpec.

Module PipelineSpec.
Import Tasker AgentManager Pipeline SchedulerSpec.

(** The step changes neither the approval nor what is recorded about
    assigned and completed tasks. *)
Definition keeps_records (p p' : pipeline) : Prop :=
  goal_graph_approved (core p') = goal_graph_approved (core p) ∧
  tasks_assigned (core p') = tasks_assigned (core p) ∧
  tasks_completed (core p') = tasks_completed (core p).

(** [p'] is [p] but for the stage. *)
Definition same_but_stage (p p' : pipeline) : Prop :=
  only_stage_differs (core p) (core p') ∧
  prd p' = prd p ∧ prd_created p' = prd_created p ∧
  goal_graph_created p' = goal_graph_created p ∧
  requirementer_agent p' = requirementer_agent p ∧
  tasker_agent p' = tasker_agent p ∧ goaler_agent p' = goaler_agent p ∧
  communicator_agent p' = communicator_agent p ∧
  prd_dir p' = prd_dir p.

(** The verdict is there and positive. *)
Definition positive (r : outcome bool) : bool :=
  match r with
  | Returned true => true
  | _ => false
  end.

(** Does the carriage return occur in the text? *)
Definition has_CR (text : string) : bool := StoreSpec.has_char CR text.

(** The text with its line ends made "\n":
    [text.replace("\r\n", "\n").replace("\r", "\n")]. *)
Definition normalized_newlines (text : string) : string :=
  replace (String CR "") (String LF "")
    (replace (String CR (String LF "")) (String LF "") text).

(** Sample data: a manager with its agents, a PRD and an approved graph. *)
Definition running : pipeline :=
  {| core := abc; prd := Some "Build a to-do list."; prd_created := true;
     goal_graph_created := true;
     requirementer_agent := Some "requirementer-1";
     tasker_agent := Some "tasker-1"; goaler_agent := Some "goaler-1";
     communicator_agent := Some "communicator-1"; prd_dir := ∅ |}.

(** A graph with one new task, to replace the graph of the scenario. *)
Definition bare_graph_for_update : Tasker.goal_graph :=
  {| tasks := Some [new_task "D" "High" []] |}.

End PipelineSpec.

(** * Properties of the lock manager *)

Section LockManager.
Import FileUtils LockSpec.

Lemma stored_record_held self dir :
  stored_record self dir = held_data self dir !! file_path self.
Proof.
  unfold stored_record, held_data.
  destruct (dir !! lock_file_path self); simpl; [done | by rewrite lookup_empty].
Qed.

Lemma held_data_ensure self dir :
  held_data self (ensure_lock_file self dir) = held_data self dir.
Proof.
  unfold held_data, ensure_lock_file.
  destruct (dir !! lock_file_path self) eqn:E; [by rewrite E |].
  by rewrite lookup_insert_eq.
Qed.

Lemma stored_record_ensure self dir :
  stored_record self (ensure_lock_file self dir) = stored_record self dir.
Proof. by rewrite !stored_record_held, held_data_ensure. Qed.

Lemma contention_conflict self exclusive now dir :
  is_Some (contention self exclusive now (held_data self dir)) ↔
  live_foreign_conflict self exclusive now dir.
Proof.
  unfold contention, live_foreign_conflict. rewrite stored_record_held.
  destruct (held_data self dir !! file_path self) as [info|]; last first.
  { split; [intros [? ?]; done | intros (? & ? & _); done]. }
  destruct (live info now) eqn:Hl.
  - case_bool_decide as Ho.
    + destruct exclusive; simpl.
      * split; [intros _; exists info; auto | eauto].
      * destruct (li_exclusive info) eqn:Hx.
        -- split; [intros _; exists info; auto | eauto].
        -- split; [intros [? ?]; done |].
           intros (i & [= <-] & _ & _ & [?|?]); congruence.
    + split; [intros [? ?]; done |].
      intros (i & [= <-] & _ & Hne & _). destruct (Hne Ho).
  - split; [intros [? ?]; done |].
    intros (i & [= <-] & ? & _); congruence.
Qed.

(** [acquire], unfolded: busy, refused or granted. *)
Lemma acquire_unfold self exclusive e dir :
  acquire self exclusive e dir =
  if flock_busy e then
    (Raised (FileLockException LockFileBusy), self, ensure_lock_file self dir)
  else
    match contention self exclusive (now_check e) (held_data self dir) with
    | Some why => (Raised (FileLockException why), self, ensure_lock_file self dir)
    | None =>
        (Returned true,
         {| file_path := file_path self; owner_id := owner_id self;
            timeout := timeout self; lock_file_path := lock_file_path self;
            lock_data := Some (fresh_record self exclusive e); locked := true |},
         <[lock_file_path self :=
             Decoded (<[file_path self := fresh_record self exclusive e]>
                        (held_data self dir))]> (ensure_lock_file self dir))
    end.
Proof.
  unfold acquire. destruct (flock_busy e); [done |].
  fold (held_data self (ensure_lock_file self dir)).
  by rewrite held_data_ensure.
Qed.

Lemma acquire_granted self exclusive e dir :
  flock_busy e = false →
  contention self exclusive (now_check e) (held_data self dir) = None →
  (acquire self exclusive e dir).1.1 = Returned true ∧
  locked (acquire self exclusive e dir).1.2 = true ∧
  stored_record self (acquire self exclusive e dir).2
    = Some (fresh_record self exclusive e).
Proof.
  intros Hb Hc. rewrite acquire_unfold, Hb, Hc. simpl.
  repeat split. unfold stored_record. rewrite lookup_insert_eq. simpl.
  by rewrite lookup_insert_eq.
Qed.

Lemma acquire_refused_iff self exclusive e dir :
  is_FileLockException (acquire self exclusive e dir).1.1 ↔
  flock_busy e = true ∨ live_foreign_conflict self exclusive (now_check e) dir.
Proof.
  rewrite acquire_unfold, <- contention_conflict.
  destruct (flock_busy e); simpl; [by intuition |].
  destruct (contention self exclusive (now_check e) (held_data self dir)); simpl.
  - split; [intros _; right; eauto | done].
  - split; [done | intros [? | [? ?]]; done].
Qed.

(** C1 (as amended).  [acquire] raises [FileLockException] exactly when the
    lock file itself is busy (flock refused) or a live record of another
    owner exists and the request or that record is exclusive; in every
    other case it returns [True].  So, the lock file not being busy, a
    shared request against a live foreign shared record succeeds, and so
    does any request with no live foreign record. *)
Theorem acquire_raises_iff self exclusive e dir :
  (is_FileLockException (acquire self exclusive e dir).1.1 ↔
     flock_busy e = true ∨
     live_foreign_conflict self exclusive (now_check e) dir) ∧
  (is_FileLockException (acquire self exclusive e dir).1.1 ∨
     (acquire self exclusive e dir).1.1 = Returned true).
Proof.
  split; [apply acquire_refused_iff |].
  rewrite acquire_unfold. destruct (flock_busy e); simpl; [by left |].
  destruct (contention _ _ _ _); simpl; [by left | by right].
Qed.

(** C1, as stated, fails: with the lock file busy [acquire] raises
    [FileLockException] although no record exists at all. *)
Lemma acquire_busy_raises_without_conflict :
  ¬ raises_exactly_on_conflict (lock_of "coder-2") false (at_second true 1) ∅.
Proof.
  intros [Hraise _].
  destruct Hraise as (info & Hsome & _); [exact I | discriminate Hsome].
Qed.

(** C5 (as amended).  When the lock file is not busy and the stored record
    has expired ([now] is not before [acquiredAt + timeout]), [acquire] by
    any owner returns [True] and the stored record becomes the caller's:
    its owner, the time of the call, its timeout and the requested mode. *)
Theorem acquire_expired_takes_over self exclusive e dir info :
  flock_busy e = false →
  stored_record self dir = Some info →
  (expires_at info ≤ now_check e)%Z →
  (acquire self exclusive e dir).1.1 = Returned true ∧
  stored_record self (acquire self exclusive e dir).2
    = Some (fresh_record self exclusive e) ∧
  li_owner_id (fresh_record self exclusive e) = owner_id self.
Proof.
  intros Hb Hs Hexp.
  destruct (acquire_granted self exclusive e dir Hb) as (Hr & _ & Hrec).
  - unfold contention. rewrite <- stored_record_held, Hs.
    unfold live. by rewrite (proj2 (Z.ltb_ge _ _) Hexp).
  - done.
Qed.

(** The scenario of the specification: timeout 30 s, a second owner at
    second 31. *)
Lemma acquire_expired_takes_over_witness :
  (acquire (lock_of "coder-2") true (at_second false 31) (held_by_coder1 true)).1.1
    = Returned true ∧
  stored_record (lock_of "coder-2")
    (acquire (lock_of "coder-2") true (at_second false 31) (held_by_coder1 true)).2
    = Some (fresh_record (lock_of "coder-2") true (at_second false 31)) ∧
  li_owner_id (fresh_record (lock_of "coder-2") true (at_second false 31))
    = "coder-2".
Proof.
  apply (acquire_expired_takes_over (lock_of "coder-2") true (at_second false 31)
           (held_by_coder1 true)
           (fresh_record (lock_of "coder-1") true (at_second false 0))).
  - reflexivity.
  - vm_compute. reflexivity.
  - vm_compute. discriminate.
Defined.

(** C5, as stated, fails: the record has expired, and yet [acquire] raises
    when the lock file is busy. *)
Lemma acquire_expired_busy_raises :
  stored_record (lock_of "coder-2") (held_by_coder1 true)
    = Some (fresh_record (lock_of "coder-1") true (at_second false 0)) ∧
  (expires_at (fresh_record (lock_of "coder-1") true (at_second false 0))
     ≤ now_check (at_second true 31))%Z ∧
  (acquire (lock_of "coder-2") true (at_second true 31) (held_by_coder1 true)).1.1
    = Raised (FileLockException LockFileBusy).
Proof.
  split; [vm_compute; reflexivity |].
  split; [vm_compute; discriminate | vm_compute; reflexivity].
Qed.

(** C10 (as amended).  When the lock file is not busy and the stored record
    belongs to the caller, [acquire] returns [True] whatever the held and
    the requested modes are (and whether the record is live or not), and
    replaces the record: time of the call, the caller's timeout, the
    requested mode. *)
Theorem acquire_by_owner_renews self exclusive e dir info :
  flock_busy e = false →
  stored_record self dir = Some info →
  li_owner_id info = owner_id self →
  (acquire self exclusive e dir).1.1 = Returned true ∧
  stored_record self (acquire self exclusive e dir).2
    = Some {| li_owner_id := owner_id self; li_time := now_stamp e;
              li_timeout := timeout self; li_exclusive := exclusive |}.
Proof.
  intros Hb Hs Ho.
  destruct (acquire_granted self exclusive e dir Hb) as (Hr & _ & Hrec).
  - unfold contention. rewrite <- stored_record_held, Hs.
    destruct (live info _); [| done].
    case_bool_decide; [congruence | done].
  - done.
Qed.

(** Exclusive over a live exclusive record of the same owner. *)
Lemma acquire_by_owner_renews_witness :
  (acquire (lock_of "coder-1") true (at_second false 10) (held_by_coder1 true)).1.1
    = Returned true ∧
  stored_record (lock_of "coder-1")
    (acquire (lock_of "coder-1") true (at_second false 10) (held_by_coder1 true)).2
    = Some {| li_owner_id := "coder-1"; li_time := seconds 10;
              li_timeout := 30; li_exclusive := true |}.
Proof.
  apply (acquire_by_owner_renews (lock_of "coder-1") true (at_second false 10)
           (held_by_coder1 true)
           (fresh_record (lock_of "coder-1") true (at_second false 0))).
  - reflexivity.
  - vm_compute. reflexivity.
  - reflexivity.
Defined.

(** C10, as stated, fails: the owner's own live record is there, and yet
    [acquire] raises when the lock file is busy, leaving the record as it
    was. *)
Lemma acquire_by_owner_busy_raises :
  stored_record (lock_of "coder-1") (held_by_coder1 false)
    = Some (fresh_record (lock_of "coder-1") false (at_second false 0)) ∧
  live (fresh_record (lock_of "coder-1") false (at_second false 0))
       (now_check (at_second true 10)) = true ∧
  (acquire (lock_of "coder-1") true (at_second true 10) (held_by_coder1 false)).1.1
    = Raised (FileLockException LockFileBusy) ∧
  stored_record (lock_of "coder-1")
    (acquire (lock_of "coder-1") true (at_second true 10) (held_by_coder1 false)).2
    = Some (fresh_record (lock_of "coder-1") false (at_second false 0)).
Proof. repeat split; vm_compute; reflexivity. Qed.

(** [release] by a holder whose flag is set, the lock file being there and
    not busy, goes by the stored record alone. *)
Lemma release_unfold self dir f :
  locked self = true →
  dir !! lock_file_path self = Some f →
  release self false dir =
  match load_data f !! file_path self with
  | Some info =>
      if bool_decide (li_owner_id info = owner_id self) then
        (true, set_locked self false,
         <[lock_file_path self := Decoded (delete (file_path self) (load_data f))]> dir)
      else (false, self, dir)
  | None => (true, set_locked self false, dir)
  end.
Proof. intros Hl Hf. unfold release. by rewrite Hl, Hf. Qed.




End LockManager.

(** * Properties of the goal-graph store *)

Section GoalGraphStore.
Import FileUtils LockSpec Tasker StoreSpec.

Variable py_hash : string → Z.
Variable FILE_LOCK_TIMEOUT : Z.

Local Abbreviation file_lock := (file_lock py_hash FILE_LOCK_TIMEOUT).
Local Abbreviation lock_for := (lock_for py_hash FILE_LOCK_TIMEOUT).
Local Abbreviation load_goal_graph := (load_goal_graph py_hash FILE_LOCK_TIMEOUT).
Local Abbreviation _save_goal_graph := (_save_goal_graph py_hash FILE_LOCK_TIMEOUT).

Lemma obtainable_contention l exclusive e dir :
  obtainable l exclusive e dir ↔
  flock_busy e = false ∧
  contention l exclusive (now_check e) (held_data l dir) = None.
Proof.
  unfold obtainable. rewrite <- contention_conflict.
  split; intros [Hb H]; (split; [done |]).
  - destruct (contention _ _ _ _); [destruct H; eauto | done].
  - rewrite H. intros [? ?]; done.
Qed.


(** [file_lock] when the lock is refused: the body does not run and
    [FileLockException] comes out. *)
Lemma file_lock_refused {A} path owner exclusive e
    (body : gmap string file_content → outcome A * gmap string file_content) w :
  ¬ obtainable (FileLock_init py_hash path owner FILE_LOCK_TIMEOUT)
      exclusive (on_acquire e) (locks w) →
  (∃ why, (file_lock path owner exclusive e body w).1
            = Raised (FileLockException why)) ∧
  files (file_lock path owner exclusive e body w).2 = files w.
Proof.
  rewrite obtainable_contention. intros Hno.
  unfold Tasker.file_lock. rewrite acquire_unfold.
  destruct (flock_busy (on_acquire e)) eqn:Hb.
  - simpl. eauto.
  - destruct (contention _ _ _ _) eqn:Hc; [| by destruct Hno].
    simpl. eauto.
Qed.

(** [file_lock] when the lock is granted: the body runs on the files, and
    the lock directory is the one after acquire and release. *)
Lemma file_lock_granted {A} path owner exclusive e
    (body : gmap string file_content → outcome A * gmap string file_content) w :
  obtainable (FileLock_init py_hash path owner FILE_LOCK_TIMEOUT)
      exclusive (on_acquire e) (locks w) →
  file_lock path owner exclusive e body w =
  ((body (files w)).1,
   {| locks := after_use (FileLock_init py_hash path owner FILE_LOCK_TIMEOUT)
                 exclusive e (locks w);
      files := (body (files w)).2 |}).
Proof.
  rewrite obtainable_contention. intros [Hb Hc].
  unfold Tasker.file_lock, after_use. rewrite acquire_unfold, Hb, Hc.
  destruct (body (files w)) as [res fs]. simpl.
  by destruct (release _ _ _) as [[? ?] ?].
Qed.

Lemma load_goal_graph_missing self filename e w :
  files w !! path_of self filename = None →
  load_goal_graph self filename e w = (Returned {| tasks := Some [] |}, w).
Proof. intros H. unfold Tasker.load_goal_graph. by rewrite H. Qed.

Lemma load_goal_graph_granted self filename e w c :
  files w !! path_of self filename = Some c →
  obtainable (lock_for self (path_of self filename)) false (on_acquire e) (locks w) →
  (load_goal_graph self filename e w).1
    = match c with
      | Garbage => Returned {| tasks := Some [] |}
      | NotUtf8 => Raised UnicodeDecodeError
      | TooDeep => Raised RecursionError
      | Json g => Returned g
      end.
Proof.
  intros Hc Hok. unfold Tasker.load_goal_graph. rewrite Hc.
  rewrite file_lock_granted by exact Hok.
  unfold load_from. rewrite Hc. by destruct c.
Qed.

Lemma load_goal_graph_refused self filename e w :
  is_Some (files w !! path_of self filename) →
  ¬ obtainable (lock_for self (path_of self filename)) false (on_acquire e) (locks w) →
  ∃ why, (load_goal_graph self filename e w).1 = Raised (FileLockException why).
Proof.
  intros [c Hc] Hno. unfold Tasker.load_goal_graph. rewrite Hc.
  destruct (file_lock_refused (path_of self filename) (id self) false e
              (load_from (path_of self filename)) w Hno) as [[why Hr] _].
  destruct (file_lock _ _ _ _ _ _) as [r w']. simpl in Hr. subst r.
  simpl. eauto.
Qed.

Lemma obtainable_dec l exclusive e dir :
  obtainable l exclusive e dir ∨ ¬ obtainable l exclusive e dir.
Proof.
  rewrite obtainable_contention.
  destruct (flock_busy e), (contention _ _ _ _); intuition congruence.
Qed.


(** *** Frame: using the lock of one resource leaves the records of the
    others alone *)

Lemma stored_record_insert l k d (dir : lock_dir) :
  stored_record l (<[k := Decoded d]> dir) =
  if decide (lock_file_path l = k) then d !! file_path l
  else stored_record l dir.
Proof.
  unfold stored_record. case_decide as Hk.
  - subst k. by rewrite lookup_insert_eq.
  - by rewrite lookup_insert_ne.
Qed.

Lemma stored_record_ensure_any l l' dir :
  stored_record l' (ensure_lock_file l dir) = stored_record l' dir.
Proof.
  unfold ensure_lock_file.
  destruct (dir !! lock_file_path l) eqn:E; [done |].
  rewrite stored_record_insert. case_decide as Hk; [| done].
  unfold stored_record. rewrite Hk, E. apply lookup_empty.
Qed.

Lemma held_data_stored l l' dir :
  lock_file_path l' = lock_file_path l →
  held_data l dir !! file_path l' = stored_record l' dir.
Proof.
  intros Hk. rewrite stored_record_held. unfold held_data. by rewrite Hk.
Qed.

(** The lock directory after a granted [acquire] and the [release] that
    follows it. *)
Lemma after_use_granted l exclusive e dir :
  obtainable l exclusive (on_acquire e) dir →
  after_use l exclusive e dir =
  let data := <[file_path l := fresh_record l exclusive (on_acquire e)]>
                (held_data l dir) in
  let dir1 := <[lock_file_path l := Decoded data]> (ensure_lock_file l dir) in
  if release_busy e then dir1
  else <[lock_file_path l := Decoded (delete (file_path l) data)]> dir1.
Proof.
  rewrite obtainable_contention. intros [Hb Hc].
  unfold after_use. rewrite acquire_unfold, Hb, Hc. simpl.
  unfold release. simpl. rewrite lookup_insert_eq.
  destruct (release_busy e); [done |]. simpl.
  rewrite lookup_insert_eq. simpl. by rewrite bool_decide_eq_true_2.
Qed.

Lemma after_use_other l l' exclusive e dir :
  obtainable l exclusive (on_acquire e) dir →
  file_path l' ≠ file_path l →
  stored_record l' (after_use l exclusive e dir) = stored_record l' dir.
Proof.
  intros Hok Hne. rewrite after_use_granted by done. simpl.
  destruct (release_busy e).
  - rewrite stored_record_insert. case_decide as Hk.
    + rewrite lookup_insert_ne by done. by apply held_data_stored.
    + apply stored_record_ensure_any.
  - rewrite !stored_record_insert. case_decide as Hk.
    + rewrite lookup_delete_ne, lookup_insert_ne by done.
      by apply held_data_stored.
    + apply stored_record_ensure_any.
Qed.

Lemma after_use_same l l' exclusive e dir info :
  obtainable l exclusive (on_acquire e) dir →
  file_path l' = file_path l → lock_file_path l' = lock_file_path l →
  stored_record l' (after_use l exclusive e dir) = Some info →
  li_owner_id info = owner_id l.
Proof.
  intros Hok Hp Hk. rewrite after_use_granted by done. simpl.
  destruct (release_busy e).
  - rewrite stored_record_insert, decide_True by done.
    rewrite Hp, lookup_insert_eq. by intros [= <-].
  - rewrite !stored_record_insert, decide_True by done.
    rewrite Hp, lookup_delete_eq. done.
Qed.


Lemma obtainable_frame l l' exclusive e dir dir' :
  stored_record l' dir' = stored_record l dir →
  owner_id l' = owner_id l →
  obtainable l exclusive e dir → obtainable l' exclusive e dir'.
Proof.
  intros Hs Ho [Hb Hno]. split; [done |].
  intros (info & Hi & Hl & Hne & Hx). apply Hno. exists info.
  rewrite <- Hs, <- Ho. done.
Qed.

Lemma snapshot_path_not_latest self timestamp :
  path_of self "latest.json" ≠ snapshot_path self timestamp.
Proof.
  unfold path_of, snapshot_path. intros H.
  apply String.app_inj in H. simpl in H. discriminate H.
Qed.

(** [_save_goal_graph] in an existing directory with both locks granted:
    both files hold the graph as given, and on "latest.json" no foreign
    lock record is left. *)
Lemma save_goal_graph_granted self g ts e1 e2 w :
  obtainable (lock_for self (snapshot_path self ts))
    true (on_acquire e1) (locks w) →
  obtainable (lock_for self (path_of self "latest.json"))
    true (on_acquire e2) (locks w) →
  let w' := (_save_goal_graph self g (Some ts) e1 e2 w).2 in
  files w' = <[path_of self "latest.json" := Json g]>
               (<[snapshot_path self ts := Json g]> (files w)) ∧
  ∀ info, stored_record (lock_for self (path_of self "latest.json")) (locks w')
            = Some info → li_owner_id info = id self.
Proof.
  intros H1 H2. unfold Tasker._save_goal_graph.
  rewrite (bool_decide_eq_true_2 (is_Some (Some ts))) by eauto.
  change (default 0%Z (Some ts)) with ts.
  rewrite file_lock_granted by exact H1. unfold dump_to at 1. simpl.
  set (w1 := {| locks := _; files := _ |}).
  assert (H2' : obtainable
            (FileLock_init py_hash (path_of self "latest.json") (id self)
               FILE_LOCK_TIMEOUT) true (on_acquire e2) (locks w1)).
  { eapply obtainable_frame; [| reflexivity | exact H2].
    subst w1. simpl. apply after_use_other; [exact H1 |].
    apply snapshot_path_not_latest. }
  rewrite file_lock_granted by exact H2'. unfold dump_to. simpl.
  split; [done |].
  intros info Hinfo.
  by apply (after_use_same _ _ _ _ _ _ H2' eq_refl eq_refl Hinfo).
Qed.



Lemma fill_defaults_idemp i t :
  fill_defaults i (fill_defaults i t) = fill_defaults i t.
Proof. done. Qed.




End GoalGraphStore.

Section GoalGraphStoreSamples.
Import FileUtils LockSpec Tasker StoreSpec.





End GoalGraphStoreSamples.

(** * Properties of the scheduler and of the task state machine *)

Section Scheduler.
Import Tasker AgentManager SchedulerSpec.

Lemma insert_by_perm {A} (key : A → Z * Z) x l :
  insert_by key x l ≡ₚ x :: l.
Proof.
  induction l as [|y l IH]; simpl; [done |].
  destruct (key_le (key x) (key y)); [done |].
  rewrite IH. apply Permutation_swap.
Qed.

Lemma sort_by_perm {A} (key : A → Z * Z) l : sort_by key l ≡ₚ l.
Proof.
  induction l as [|x l IH]; simpl; [done |].
  fold (sort_by key l). by rewrite insert_by_perm, IH.
Qed.

(** The sorted list is ascending in the key: a smaller priority rank comes
    first, and among equal ranks the larger number of dependencies. *)
Lemma key_le_total a b : key_le a b = false → key_le b a = true.
Proof.
  unfold key_le. destruct a as [a1 a2], b as [b1 b2]. simpl.
  rewrite orb_false_iff, andb_false_iff, orb_true_iff, andb_true_iff.
  rewrite !Z.ltb_ge, !Z.ltb_lt, !Z.eqb_neq, !Z.eqb_eq, !Z.leb_gt, !Z.leb_le.
  lia.
Qed.

Lemma insert_by_sorted {A} (key : A → Z * Z) x l :
  Sorted (λ a b, key_le (key a) (key b) = true) l →
  Sorted (λ a b, key_le (key a) (key b) = true) (insert_by key x l).
Proof.
  induction 1 as [|y l Hs IH Hhd]; simpl.
  - by repeat constructor.
  - destruct (key_le (key x) (key y)) eqn:Hxy.
    + constructor; [by constructor | by constructor].
    + constructor; [exact IH |].
      destruct Hhd as [|z l' Hyz]; simpl.
      * constructor. by apply key_le_total.
      * destruct (key_le (key x) (key z)); constructor;
          [by apply key_le_total | done].
Qed.

Lemma sort_by_sorted {A} (key : A → Z * Z) l :
  Sorted (λ a b, key_le (key a) (key b) = true) (sort_by key l).
Proof.
  induction l as [|x l IH]; simpl; [constructor |].
  by apply insert_by_sorted.
Qed.

(** *** The ready set *)

Lemma all_deps_completed_spec completed deps :
  all_deps_completed completed deps = true ↔
  ∀ d, d ∈ deps → completed !! d = Some "Completed".
Proof.
  unfold all_deps_completed. induction deps as [|d deps IH]; simpl.
  - split; [intros _ d Hd; by apply not_elem_of_nil in Hd | done].
  - rewrite andb_true_iff, IH, bool_decide_eq_true. split.
    + intros [Hd Hrest] d' [-> | Hin]%elem_of_cons; auto.
    + intros H. split; [apply H; left | intros d' Hd'; apply H; by right].
Qed.

Lemma is_available_selectable s t :
  is_available s t = true ↔ selectable s t.
Proof.
  unfold is_available, selectable.
  rewrite <- all_deps_completed_spec.
  destruct (tasks_assigned s !! t_id t) as [a|] eqn:Ha; simpl.
  { split; [done | intros [? _]; done]. }
  case_bool_decide as Hst; simpl.
  { split; [done | intros (_ & ? & _); done]. }
  case_bool_decide as Hnil; simpl.
  - rewrite Hnil. simpl. by intuition.
  - by intuition.
Qed.

Lemma elem_of_available_tasks s ts j t :
  (j, t) ∈ available_tasks s ts ↔ ts !! j = Some t ∧ selectable s t.
Proof.
  unfold available_tasks.
  rewrite list_elem_of_filter, elem_of_lookup_imap. simpl.
  rewrite <- is_available_selectable, Is_true_true. split.
  - intros [Hav (i & x & [= -> ->] & Hl)]. done.
  - intros [Hl Hav]. split; [done |]. by exists j, t.
Qed.

Lemma elem_of_sorted_available s ts j t :
  (j, t) ∈ sort_by (λ it, sort_key it.2) (available_tasks s ts) ↔
  ts !! j = Some t ∧ selectable s t.
Proof. by rewrite sort_by_perm, elem_of_available_tasks. Qed.

(** *** The assignment loop *)

Lemma assign_loop_assignments a0 pool' w avail : ∀ i st,
  assignments (assign_loop a0 pool' i avail st) !! w
  = (λ l, l ++ share a0 pool' w i avail) <$> assignments st !! w.
Proof.
  induction avail as [|it rest IH]; intros i st; simpl.
  - destruct (assignments st !! w); simpl; [by rewrite app_nil_r | done].
  - rewrite IH. simpl. rewrite lookup_alter. case_decide as Hw.
    + rewrite bool_decide_eq_true_2 by done. rewrite Hw.
      destruct (assignments st !! w); simpl; [| done].
      by rewrite <- app_assoc.
    + by rewrite bool_decide_eq_false_2.
Qed.

Lemma assign_loop_assigned a0 pool' avail : ∀ i st k,
  is_Some (assigned (assign_loop a0 pool' i avail st) !! k) ↔
  is_Some (assigned st !! k) ∨ k ∈ (λ it : nat * task, t_id it.2) <$> avail.
Proof.
  induction avail as [|it rest IH]; intros i st k; simpl.
  - split; [by left | intros [? | H]; [done | by apply not_elem_of_nil in H]].
  - rewrite IH. simpl. rewrite elem_of_cons, lookup_insert_is_Some.
    destruct (decide (t_id it.2 = k)) as [-> | Hne]; [by intuition |].
    split.
    + intros [[? | [_ ?]] | ?]; by auto.
    + intros [? | [? | ?]]; [by auto | congruence | by auto].
Qed.

Lemma assign_loop_tasks_other a0 pool' avail : ∀ i st j,
  j ∉ avail.*1 →
  graph_tasks (assign_loop a0 pool' i avail st) !! j = graph_tasks st !! j.
Proof.
  induction avail as [|it rest IH]; intros i st j Hj; simpl; [done |].
  rewrite fmap_cons, not_elem_of_cons in Hj. destruct Hj as [Hne Hj].
  rewrite IH by done. simpl. by rewrite list_lookup_alter_ne.
Qed.

Lemma assign_loop_tasks_id a0 pool' avail : ∀ i st j,
  t_id <$> graph_tasks (assign_loop a0 pool' i avail st) !! j
  = t_id <$> graph_tasks st !! j.
Proof.
  induction avail as [|it rest IH]; intros i st j; simpl; [done |].
  rewrite IH. simpl. rewrite list_lookup_alter.
  destruct (decide (it.1 = j)) as [<- | ?]; [| done].
  by destruct (graph_tasks st !! it.1).
Qed.

Lemma no_assignments_lookup pool w :
  no_assignments pool !! w = if bool_decide (w ∈ pool) then Some [] else None.
Proof.
  unfold no_assignments. induction pool as [|a pool IH].
  - rewrite fmap_nil, list_to_map_nil, lookup_empty.
    by rewrite bool_decide_eq_false_2 by apply not_elem_of_nil.
  - rewrite fmap_cons, list_to_map_cons, lookup_insert.
    destruct (decide (a = w)) as [-> | Ha].
    + by rewrite bool_decide_eq_true_2 by left.
    + rewrite IH. apply (f_equal (λ b : bool, if b then Some [] else None)).
      apply bool_decide_ext. rewrite elem_of_cons. intuition congruence.
Qed.

Lemma agent_at_in_pool a0 pool' i : agent_at a0 pool' i ∈ a0 :: pool'.
Proof.
  unfold agent_at. apply list_elem_of_In, nth_In.
  apply Nat.mod_upper_bound. done.
Qed.

Lemma elem_of_share a0 pool' w x avail : ∀ i,
  x ∈ share a0 pool' w i avail →
  x ∈ (λ it : nat * task, t_id it.2) <$> avail.
Proof.
  induction avail as [|it rest IH]; intros i; simpl; [done |].
  rewrite elem_of_app, elem_of_cons. intros [H | H]; [| by eauto].
  case_bool_decide; [| by apply not_elem_of_nil in H].
  apply list_elem_of_singleton in H. by left.
Qed.

(** What a successful [assign_tasks] is made of. *)
Lemma assign_tasks_returned s a s' :
  assign_tasks s = (Returned a, s') →
  ∃ a0 pool' g,
    coder_agents s = a0 :: pool' ∧ goal_graph s = Some g ∧
    goal_graph_approved s = true ∧
    let avail := sort_by (λ it : nat * task, sort_key it.2)
                   (available_tasks s (default [] (tasks g))) in
    let st := assign_loop a0 pool' 0 avail
                {| assignments := no_assignments (a0 :: pool');
                   assigned := tasks_assigned s;
                   graph_tasks := default [] (tasks g) |} in
    a = assignments st ∧
    s' = {| current_stage := "tasks_assigned";
            goal_graph_approved := goal_graph_approved s;
            tasks_assigned := assigned st;
            tasks_completed := tasks_completed s;
            files_modified := files_modified s;
            coder_agents := coder_agents s;
            qualitator_agent := qualitator_agent s;
            goal_graph := Some {| tasks := (λ _, graph_tasks st) <$> tasks g |} |}.
Proof.
  unfold assign_tasks.
  destruct (coder_agents s) as [|a0 pool'] eqn:Hp; [done |].
  destruct (goal_graph s) as [g|] eqn:Hg; [| done].
  destruct (goal_graph_approved s) eqn:Ha; [| done]. simpl.
  intros [= <- <-]. by exists a0, pool', g.
Qed.

(** Round-robin: worker [w] of the pool gets the ids at the positions of
    the sorted ready list that are [w]'s turn, in that order. *)
Lemma assign_tasks_shares s a s' :
  assign_tasks s = (Returned a, s') →
  ∃ a0 pool', coder_agents s = a0 :: pool' ∧
    ∀ w, a !! w =
      if bool_decide (w ∈ coder_agents s) then
        Some (share a0 pool' w 0
                (sort_by (λ it : nat * task, sort_key it.2)
                   (available_tasks s (tasks_of s))))
      else None.
Proof.
  intros (a0 & pool' & g & Hp & Hg & _ & Ha & _)%assign_tasks_returned.
  exists a0, pool'. split; [done |]. intros w. subst a.
  rewrite assign_loop_assignments. simpl.
  rewrite no_assignments_lookup, Hp. unfold tasks_of. rewrite Hg. simpl.
  by case_bool_decide.
Qed.

(** C6 (as amended).  A task is selected by the ready-set computation if
    and only if its id is not yet a key of [tasks_assigned], its status is
    not "Completed", and every one of its dependency ids is recorded as
    "Completed" (an empty dependency list qualifies trivially);
    consequently every task id that [assign_tasks] hands to a worker
    belongs to a task of the graph all of whose dependencies are
    completed. *)
Theorem ready_set_selects s :
  (∀ j t, (j, t) ∈ available_tasks s (tasks_of s) ↔
          tasks_of s !! j = Some t ∧ selectable s t) ∧
  (∀ a s' w l x,
      assign_tasks s = (Returned a, s') → a !! w = Some l → x ∈ l →
      ∃ t, t ∈ tasks_of s ∧ t_id t = x ∧ selectable s t ∧
           ∀ d, d ∈ default [] (t_dependencies t) →
                tasks_completed s !! d = Some "Completed").
Proof.
  split; [intros j t; apply elem_of_available_tasks |].
  intros a s' w l x Has Hl Hx.
  destruct (assign_tasks_shares _ _ _ Has) as (a0 & pool' & _ & Hsh).
  rewrite Hsh in Hl. case_bool_decide; [| done]. injection Hl as <-.
  apply elem_of_share, list_elem_of_fmap in Hx.
  destruct Hx as ([j t] & -> & Hin). simpl.
  apply elem_of_sorted_available in Hin. destruct Hin as [Hj Hsel].
  exists t. split; [by eapply list_elem_of_lookup_2 |].
  split; [done |]. split; [done |]. by destruct Hsel as (_ & _ & ?).
Qed.

(** *** Calling [assign_tasks] again *)

(** When [assign_tasks] raises, it is before anything is changed. *)
Lemma assign_tasks_raises_unchanged s :
  raises (assign_tasks s).1 → (assign_tasks s).2 = s.
Proof.
  unfold assign_tasks. destruct (coder_agents s); [done |].
  destruct (goal_graph s); [| done].
  by destruct (goal_graph_approved s).
Qed.

Lemma filter_none {A} (P : A → Prop) `{!∀ x, Decision (P x)} (l : list A) :
  (∀ x, x ∈ l → ¬ P x) → filter P l = [].
Proof.
  induction l as [|x l IH]; intros Hno; [done |].
  rewrite filter_cons_False by (apply Hno; left).
  apply IH. intros y Hy. apply Hno. by right.
Qed.

Lemma nothing_available_after_assign s a1 s1 :
  assign_tasks s = (Returned a1, s1) →
  available_tasks s1 (tasks_of s1) = [].
Proof.
  intros (a0 & pool' & g & Hp & Hg & _ & Hst)%assign_tasks_returned.
  simpl in Hst. destruct Hst as [_ ->].
  unfold tasks_of. simpl.
  destruct (tasks g) as [ts|] eqn:Hts; simpl; [| done].
  set (avail := sort_by _ _).
  set (st0 := {| assignments := _; assigned := _; graph_tasks := _ |}).
  apply filter_none. intros [j t'] Hin Hav. simpl in Hav.
  apply Is_true_true, is_available_selectable in Hav.
  destruct Hav as (Hfree & Hstatus & Hdeps). simpl in Hfree, Hdeps.
  apply elem_of_lookup_imap in Hin.
  destruct Hin as (j' & t'' & [= <- <-] & Hj).
  pose proof (assign_loop_tasks_id a0 pool' avail 0 st0 j) as Hid.
  rewrite Hj in Hid. simpl in Hid.
  destruct (ts !! j) as [t|] eqn:Ht; [| done]. simpl in Hid.
  injection Hid as Hid.
  assert (Hnew : ¬ is_Some (assigned (assign_loop a0 pool' 0 avail st0) !! t_id t')).
  { rewrite Hfree. by intros [? ?]. }
  rewrite assign_loop_assigned in Hnew. simpl in Hnew.
  destruct (decide (j ∈ avail.*1)) as [Hmem | Hmem].
  - apply list_elem_of_fmap in Hmem. destruct Hmem as ([j0 t0] & -> & Hmem).
    simpl in *. apply Hnew. right. apply list_elem_of_fmap.
    exists (j0, t0). split; [| done]. simpl.
    apply elem_of_sorted_available in Hmem. destruct Hmem as [Ht0 _].
    rewrite Ht in Ht0. injection Ht0 as <-. done.
  - rewrite (assign_loop_tasks_other a0 pool' avail 0 st0 j Hmem) in Hj.
    simpl in Hj. rewrite Ht in Hj. injection Hj as <-.
    apply Hmem. apply list_elem_of_fmap. exists (j, t). split; [done |].
    apply elem_of_sorted_available. split; [done |].
    split; [| done].
    destruct (tasks_assigned s !! t_id t) eqn:E; [| done].
    destruct Hnew. left. by eauto.
Qed.

(** With nothing available, [assign_tasks] hands out nothing and, the
    stage being "tasks_assigned" already, changes nothing. *)
Lemma assign_tasks_nothing s a0 pool' g :
  coder_agents s = a0 :: pool' → goal_graph s = Some g →
  goal_graph_approved s = true → current_stage s = "tasks_assigned" →
  available_tasks s (tasks_of s) = [] →
  assign_tasks s = (Returned (no_assignments (a0 :: pool')), s).
Proof.
  intros Hp Hg Happ Hstage Hnone.
  unfold tasks_of in Hnone. rewrite Hg in Hnone. simpl in Hnone.
  unfold assign_tasks. rewrite Hp, Hg, Happ. simpl. rewrite Hnone. simpl.
  f_equal. destruct s; simpl in *; subst. do 2 f_equal.
  destruct g as [[ts|]]; done.
Qed.

(** Right after a successful [assign_tasks], a second call returns the
    assignment in which every worker has the empty list, and leaves the
    state exactly as it is. *)
Lemma assign_tasks_again s a1 s1 :
  assign_tasks s = (Returned a1, s1) →
  assign_tasks s1 = (Returned (no_assignments (coder_agents s)), s1).
Proof.
  intros Has. pose proof (nothing_available_after_assign _ _ _ Has) as Hnone.
  apply assign_tasks_returned in Has.
  destruct Has as (a0 & pool' & g & Hp & Hg & Happ & Hst).
  simpl in Hst. destruct Hst as [_ Hs1]. rewrite Hp.
  eapply assign_tasks_nothing; [| | | | exact Hnone]; by rewrite Hs1.
Qed.

(** *** Counting what is handed out *)

Lemma all_assigned_empty (a : gmap string (list (option string))) :
  (∀ w l, a !! w = Some l → l = []) → all_assigned a = [].
Proof.
  intros H. unfold all_assigned.
  assert (Hall : Forall (λ l, l = []) (map_to_list a).*2).
  { apply Forall_forall. intros l ([w l'] & -> & Hin)%list_elem_of_fmap.
    apply elem_of_map_to_list in Hin. by eapply H. }
  induction Hall as [|l ls -> _ IH]; [done | done].
Qed.

Lemma all_assigned_alter (a : gmap string (list (option string))) k v x :
  a !! k = Some v →
  all_assigned (alter (λ l, l ++ [x]) k a) ≡ₚ x :: all_assigned a.
Proof.
  intros Hk. unfold all_assigned.
  assert (Halt : alter (λ l, l ++ [x]) k a = <[k := v ++ [x]]> (delete k a)).
  { apply map_eq. intros j. rewrite lookup_alter, lookup_insert.
    case_decide as Hj; [subst; by rewrite Hk |].
    by rewrite lookup_delete_ne. }
  rewrite Halt, map_to_list_insert by apply lookup_delete_eq.
  rewrite <- (map_to_list_delete a k v Hk). simpl.
  rewrite <- app_assoc. simpl. by rewrite <- Permutation_middle.
Qed.

Lemma all_assigned_loop a0 pool' avail : ∀ i st,
  (∀ w, w ∈ a0 :: pool' → is_Some (assignments st !! w)) →
  all_assigned (assignments (assign_loop a0 pool' i avail st))
  ≡ₚ all_assigned (assignments st) ++ ((λ it : nat * task, t_id it.2) <$> avail).
Proof.
  induction avail as [|it rest IH]; intros i st Hdom; simpl.
  - by rewrite app_nil_r.
  - rewrite IH; simpl.
    + destruct (Hdom (agent_at a0 pool' i) (agent_at_in_pool _ _ _)) as [v Hv].
      rewrite (all_assigned_alter _ _ _ _ Hv).
      by rewrite <- Permutation_middle.
    + intros w Hw. by rewrite lookup_alter_is_Some; auto.
Qed.

Lemma all_assigned_assign s a s' :
  assign_tasks s = (Returned a, s') →
  all_assigned a ≡ₚ
    (λ it : nat * task, t_id it.2) <$> available_tasks s (tasks_of s).
Proof.
  intros (a0 & pool' & g & Hp & Hg & _ & Ha & _)%assign_tasks_returned.
  subst a. rewrite all_assigned_loop; simpl.
  - rewrite all_assigned_empty.
    + simpl. unfold tasks_of. rewrite Hg. simpl. by rewrite sort_by_perm.
    + intros w l. rewrite no_assignments_lookup. by case_bool_decide; [intros [= <-] |].
  - intros w Hw. rewrite no_assignments_lookup.
    by rewrite bool_decide_eq_true_2.
Qed.

Lemma available_ids_submseteq s ts :
  ((λ it : nat * task, t_id it.2) <$> available_tasks s ts) ⊆+ (t_id <$> ts).
Proof.
  unfold available_tasks.
  transitivity ((λ it : nat * task, t_id it.2) <$> imap pair ts).
  - apply fmap_submseteq, sublist_submseteq, sublist_filter.
  - rewrite fmap_imap. unfold compose. simpl.
    by rewrite (imap_const t_id).
Qed.

Lemma submseteq_NoDup {A} (l k : list A) : l ⊆+ k → NoDup k → NoDup l.
Proof.
  intros [k' Hk]%submseteq_Permutation. rewrite Hk.
  by intros [? _]%NoDup_app.
Qed.

(** C7.  [assign_tasks] called twice in a row: the second call hands out
    nothing (every worker gets the empty list, so in particular no task
    that is In Progress or Completed) and changes nothing; and over both
    calls and all workers together every task is handed out at most once:
    what is handed out is a sub-multiset of the ids of the graph's tasks,
    hence without repetition when the ids of the graph are distinct. *)
Theorem assign_tasks_idempotent s a1 s1 :
  assign_tasks s = (Returned a1, s1) →
  ∃ a2,
    assign_tasks s1 = (Returned a2, s1) ∧
    (∀ w l, a2 !! w = Some l → l = []) ∧
    all_assigned a1 ++ all_assigned a2 ⊆+ (t_id <$> tasks_of s) ∧
    (NoDup (t_id <$> tasks_of s) → NoDup (all_assigned a1 ++ all_assigned a2)).
Proof.
  intros Has. exists (no_assignments (coder_agents s)).
  split; [by eapply assign_tasks_again |].
  assert (Hempty : ∀ w l, no_assignments (coder_agents s) !! w = Some l → l = []).
  { intros w l. rewrite no_assignments_lookup.
    by case_bool_decide; [intros [= <-] |]. }
  split; [done |].
  assert (Hsub : all_assigned a1 ++ all_assigned (no_assignments (coder_agents s))
                 ⊆+ (t_id <$> tasks_of s)).
  { rewrite (all_assigned_empty _ Hempty), app_nil_r.
    rewrite (all_assigned_assign _ _ _ Has). apply available_ids_submseteq. }
  split; [done |]. intros Hnd. by eapply submseteq_NoDup.
Qed.

(** The scenario A, B, C with two workers. *)
Lemma assign_tasks_idempotent_witness :
  ∃ a2,
    assign_tasks (assign_tasks abc).2 = (Returned a2, (assign_tasks abc).2) ∧
    (∀ w l, a2 !! w = Some l → l = []) ∧
    all_assigned abc_first ++ all_assigned a2 ⊆+ (t_id <$> tasks_of abc) ∧
    (NoDup (t_id <$> tasks_of abc) → NoDup (all_assigned abc_first ++ all_assigned a2)).
Proof.
  apply (assign_tasks_idempotent abc abc_first (assign_tasks abc).2).
  vm_compute. reflexivity.
Defined.

(** In the scenario, the id A handed to "coder-1" is the one of a
    selectable task. *)
Lemma ready_set_selects_witness :
  ∃ t, t ∈ tasks_of abc ∧ t_id t = Some "A" ∧ selectable abc t ∧
       ∀ d, d ∈ default [] (t_dependencies t) →
            tasks_completed abc !! d = Some "Completed".
Proof.
  apply (proj2 (ready_set_selects abc) abc_first (assign_tasks abc).2
           "coder-1" [Some "A"] (Some "A")).
  - vm_compute. reflexivity.
  - vm_compute. reflexivity.
  - constructor.
Defined.

(** C6, as stated, fails: task A has been assigned and implemented, its
    status is "Needs Review" (neither In Progress nor Completed) and it has
    no dependency, so it qualifies in the words of the specification; the
    ready-set computation does not select it, and [assign_tasks] hands out
    nothing. *)
Lemma needs_review_task_not_selected :
  tasks_of first_pass = [implemented_A] ∧
  qualifies first_pass implemented_A ∧
  ((0, implemented_A) ∉ available_tasks first_pass (tasks_of first_pass)) ∧
  (assign_tasks first_pass).1 = Returned {[ "coder-1" := [] ]}.
Proof.
  split; [vm_compute; reflexivity |].
  split.
  { split; [discriminate |]. split; [discriminate |].
    intros d Hd. by apply not_elem_of_nil in Hd. }
  split; [| vm_compute; reflexivity].
  assert (Hnone : available_tasks first_pass (tasks_of first_pass) = []).
  { vm_compute. reflexivity. }
  rewrite Hnone. apply not_elem_of_nil.
Qed.

(** *** Order of the ready list *)

(** C3.  At three ready tasks of priorities High, Medium and Low
    [assign_tasks] hands them to the single worker in the order Low,
    Medium, High: the sort of line 404 is ascending in the priority rank,
    where the claim wants High first.  The rest of the claim holds on the
    scenario of the specification: A first, then B and C one per worker. *)
Theorem assign_tasks_orders_low_first :
  (assign_tasks three_priorities).1
    = Returned {[ "coder-1" := [Some "L"; Some "M"; Some "H"] ]} ∧
  (assign_tasks abc).1 = Returned abc_first ∧
  (assign_tasks abc_after_A).1
    = Returned {[ "coder-1" := [Some "B"]; "coder-2" := [Some "C"] ]}.
Proof. repeat split; vm_compute; reflexivity. Qed.

(** *** The task state machine *)

Lemma find_task_set_status task_id status ts : ∀ i,
  fst <$> find_task task_id (alter (set_status status) i ts)
  = fst <$> find_task task_id ts.
Proof.
  unfold find_task. induction ts as [|t ts IH]; intros i; [done |].
  destruct i as [|i]; simpl.
  - by destruct (decide (py_str (t_id t) = task_id)).
  - destruct (decide (py_str (t_id t) = task_id)); [done |].
    specialize (IH i). simpl in IH.
    change (list_alter (set_status status) i ts)
      with (alter (set_status status) i ts).
    destruct (list_find _ (alter _ i ts)) as [[? ?]|], (list_find _ ts) as [[? ?]|];
      simpl in *; congruence.
Qed.

Lemma verify_fixes_raises_iff s task_id report :
  raises (verify_fixes s task_id report).1 ↔
  (qualitator_agent s = None ∨
   tasks_completed s !! task_id ≠ Some "Needs Review" ∨
   goal_graph s = None ∨
   find_task task_id (tasks_of s) = None) ∨
  raises report.
Proof.
  unfold verify_fixes, tasks_of.
  destruct (qualitator_agent s); simpl; [| by intuition].
  case_bool_decide as Hst; simpl; [by intuition |].
  destruct (goal_graph s) as [g|]; simpl; [| by intuition].
  destruct (find_task task_id (default [] (tasks g))) as [[i t]|]; simpl;
    [| by intuition].
  destruct report as [b | e]; simpl.
  - split; [done |]. intros [[? | [? | [? | ?]]] | ?]; done.
  - by intuition.
Qed.

Lemma verify_fixes_stopped s task_id report :
  qualitator_agent s = None ∨
  tasks_completed s !! task_id ≠ Some "Needs Review" ∨
  goal_graph s = None ∨
  find_task task_id (tasks_of s) = None →
  (verify_fixes s task_id report).2 = s.
Proof.
  unfold verify_fixes, tasks_of.
  destruct (qualitator_agent s); simpl; [| done].
  case_bool_decide as Hst; simpl; [done |].
  destruct (goal_graph s) as [g|]; simpl; [| done].
  destruct (find_task task_id (default [] (tasks g))) as [[i t]|]; simpl;
    [| done].
  intros [? | [? | [? | ?]]]; done.
Qed.

Lemma verify_fixes_agent_raised s task_id e :
  ¬ (qualitator_agent s = None ∨
     tasks_completed s !! task_id ≠ Some "Needs Review" ∨
     goal_graph s = None ∨
     find_task task_id (tasks_of s) = None) →
  (verify_fixes s task_id (Raised e)).1 = Raised e ∧
  current_stage (verify_fixes s task_id (Raised e)).2
    = "verifying_fixes_for_task_" +:+ task_id ∧
  only_stage_differs s (verify_fixes s task_id (Raised e)).2.
Proof.
  unfold verify_fixes, tasks_of.
  destruct (qualitator_agent s); simpl; [| by intuition].
  case_bool_decide as Hst; simpl; [by intuition |].
  destruct (goal_graph s) as [g|] eqn:Hg; simpl; [| by intuition].
  destruct (find_task task_id (default [] (tasks g))) as [[i t]|]; simpl;
    [| by intuition].
  intros _. by repeat split.
Qed.

Lemma implement_task_returned s0 task_id report s :
  implement_task s0 task_id report = (Returned (), s) →
  qualitator_agent s = qualitator_agent s0 ∧
  tasks_completed s !! task_id = Some "Needs Review" ∧
  is_Some (goal_graph s) ∧
  is_Some (find_task task_id (tasks_of s)).
Proof.
  unfold implement_task.
  destruct (tasks_assigned s0 !! Some task_id); [| done].
  case_bool_decide; [| done].
  destruct (goal_graph s0) as [g|] eqn:Hg; [| done].
  destruct (find_task task_id (default [] (tasks g))) as [[i t]|] eqn:Hf; [| done].
  destruct report as [modified | e]; [| done].
  intros [= <-]. unfold tasks_of, record_status. simpl. rewrite Hg. simpl.
  split; [done |]. split; [apply lookup_insert_eq |]. split; [by eauto |].
  apply fmap_is_Some with (f := fst).
  destruct (tasks g) as [ts|]; simpl in *; [| done].
  rewrite find_task_set_status, Hf. by eauto.
Qed.

(** C4 (as amended).  [verify_fixes] aborts with an error exactly when no
    reviewer has been created, or the status recorded for the task is not
    "Needs Review", or the task is not in the graph, or the call of the
    reviewer agent itself raises.  In the first three cases the state is
    left as it is; in the last the exception of the agent comes out and
    only the stage, written before the call, has changed.  The recorded
    status does not tell whether "Needs Review" was set by a fix or by the
    first implementation pass: right after [implement_task] has returned
    for the task (no fix has run), [verify_fixes] proceeds, and when the
    reviewer returns a verdict it returns that verdict and records
    "Completed" or "Needs Fixes". *)
Theorem verify_fixes_precondition s task_id report :
  let stopped :=
    qualitator_agent s = None ∨
    tasks_completed s !! task_id ≠ Some "Needs Review" ∨
    goal_graph s = None ∨
    find_task task_id (tasks_of s) = None in
  (raises (verify_fixes s task_id report).1 ↔ stopped ∨ raises report) ∧
  (stopped → (verify_fixes s task_id report).2 = s) ∧
  (∀ e, ¬ stopped → report = Raised e →
     (verify_fixes s task_id report).1 = Raised e ∧
     current_stage (verify_fixes s task_id report).2
       = "verifying_fixes_for_task_" +:+ task_id ∧
     only_stage_differs s (verify_fixes s task_id report).2) ∧
  (∀ s0 report0 all_fixed,
     implement_task s0 task_id report0 = (Returned (), s) →
     is_Some (qualitator_agent s) →
     report = Returned all_fixed →
     (verify_fixes s task_id report).1 = Returned all_fixed ∧
     tasks_completed (verify_fixes s task_id report).2 !! task_id
       = Some (if all_fixed then "Completed" else "Needs Fixes")).
Proof.
  intros stopped. subst stopped.
  split; [apply verify_fixes_raises_iff |].
  split; [apply verify_fixes_stopped |].
  split; [intros e Hgo ->; by apply verify_fixes_agent_raised |].
  intros s0 report0 all_fixed Himpl [q Hq] ->.
  destruct (implement_task_returned _ _ _ _ Himpl) as (_ & Hst & [g Hg] & [[i t] Hf]).
  unfold verify_fixes. unfold tasks_of in Hf. rewrite Hq, Hst, Hg in *.
  simpl in *. rewrite Hf.
  destruct all_fixed; simpl; (split; [done | apply lookup_insert_eq]).
Qed.

(** Task A after its first implementation pass, verdict "not all fixed". *)
Lemma verify_fixes_precondition_witness :
  implement_task
    (assign_tasks (manager_of ["coder-1"] [new_task "A" "High" []])).2
    "A" (Returned ["a.py"]) = (Returned (), first_pass) ∧
  (verify_fixes first_pass "A" (Returned false)).1 = Returned false ∧
  tasks_completed (verify_fixes first_pass "A" (Returned false)).2 !! "A"
    = Some "Needs Fixes".
Proof.
  assert (Himpl : implement_task
            (assign_tasks (manager_of ["coder-1"] [new_task "A" "High" []])).2
            "A" (Returned ["a.py"]) = (Returned (), first_pass))
    by (vm_compute; reflexivity).
  split; [exact Himpl |].
  apply (proj2 (proj2 (proj2 (verify_fixes_precondition first_pass "A"
                                (Returned false))))
           (assign_tasks (manager_of ["coder-1"] [new_task "A" "High" []])).2
           (Returned ["a.py"]) false Himpl).
  - vm_compute. eauto.
  - reflexivity.
Defined.

(** C4, as stated, fails: task A went through its first implementation
    pass only, and [verify_fixes] on it does not abort: with a positive
    verdict of the reviewer it returns and the task is recorded as
    "Completed". *)
Lemma verify_fixes_after_first_pass :
  implement_task
    (assign_tasks (manager_of ["coder-1"] [new_task "A" "High" []])).2
    "A" (Returned ["a.py"]) = (Returned (), first_pass) ∧
  tasks_completed first_pass !! "A" = Some "Needs Review" ∧
  (verify_fixes first_pass "A" (Returned true)).1 = Returned true ∧
  tasks_completed (verify_fixes first_pass "A" (Returned true)).2 !! "A"
    = Some "Completed".
Proof. repeat split; vm_compute; reflexivity. Qed.

End Scheduler.

(** * Further properties of the lock manager *)

Section LockManagerUse.
Import FileUtils LockSpec.

(** Whatever [acquire] does, the records of the other resources stay. *)
Lemma stored_record_acquire_other l l' exclusive e dir :
  file_path l' ≠ file_path l →
  stored_record l' (acquire l exclusive e dir).2 = stored_record l' dir.
Proof.
  intros Hne. rewrite acquire_unfold.
  destruct (flock_busy e); simpl; [apply stored_record_ensure_any |].
  destruct (contention _ _ _ _); simpl; [apply stored_record_ensure_any |].
  rewrite stored_record_insert. case_decide as Hk.
  - rewrite lookup_insert_ne by done. by apply held_data_stored.
  - apply stored_record_ensure_any.
Qed.

Lemma stored_record_acquire_raised l l' exclusive e dir :
  raises (acquire l exclusive e dir).1.1 →
  stored_record l' (acquire l exclusive e dir).2 = stored_record l' dir.
Proof.
  rewrite acquire_unfold.
  destruct (flock_busy e); simpl; [intros _; apply stored_record_ensure_any |].
  destruct (contention _ _ _ _); simpl; [intros _; apply stored_record_ensure_any |].
  done.
Qed.

Lemma stored_record_same l l' dir :
  file_path l' = file_path l → lock_file_path l' = lock_file_path l →
  stored_record l' dir = stored_record l dir.
Proof. unfold stored_record. by intros -> ->. Qed.

(** [release] touches at most the caller's own record: a record of
    another resource, or of another owner, stays. *)
Lemma stored_record_release_kept l l' busy dir :
  file_path l' ≠ file_path l ∨
  (∀ info, stored_record l' dir = Some info → li_owner_id info ≠ owner_id l) →
  stored_record l' (release l busy dir).2 = stored_record l' dir.
Proof.
  intros Hkeep. unfold release.
  destruct (locked l); simpl; [| done].
  destruct (dir !! lock_file_path l) as [f|] eqn:Hf; [| done].
  destruct busy; [done |].
  destruct (load_data f !! file_path l) as [info|] eqn:Hi; simpl; [| done].
  case_bool_decide as Ho; simpl; [| done].
  rewrite stored_record_insert. case_decide as Hk; [| done].
  destruct (decide (file_path l' = file_path l)) as [Hp | Hp].
  - destruct Hkeep as [? | Hkeep]; [done |].
    destruct (Hkeep info); [| done].
    unfold stored_record. by rewrite Hk, Hf, Hp.
  - rewrite lookup_delete_ne by done.
    unfold stored_record. by rewrite Hk, Hf.
Qed.

(** X1.  While a granted lock has not expired, another owner's [acquire]
    on the same resource (lock file not busy) is decided by the two modes
    alone: it raises [FileLockException], naming the holder and the
    expiry, when either mode is exclusive, and leaves the holder's record
    in place; it returns [True] when both are shared. *)
Theorem held_lock_admits_only_shared a b mode_a mode_b ea eb dir :
  file_path b = file_path a → lock_file_path b = lock_file_path a →
  owner_id b ≠ owner_id a →
  (acquire a mode_a ea dir).1.1 = Returned true →
  flock_busy eb = false →
  (now_check eb < now_stamp ea + seconds (timeout a))%Z →
  (acquire b mode_b eb (acquire a mode_a ea dir).2).1.1 =
    (if mode_b || mode_a
     then Raised (FileLockException
                    (LockedBy (owner_id a) (now_stamp ea + seconds (timeout a))))
     else Returned true) ∧
  (mode_b || mode_a = true →
   stored_record a (acquire b mode_b eb (acquire a mode_a ea dir).2).2
     = Some (fresh_record a mode_a ea)).
Proof.
  intros Hp Hk Ho Ha Hb Hlive.
  assert (Hrec : stored_record b (acquire a mode_a ea dir).2
                 = Some (fresh_record a mode_a ea)).
  { rewrite (stored_record_same a b) by done.
    revert Ha. rewrite acquire_unfold. destruct (flock_busy ea); [done |].
    destruct (contention _ _ _ _); [done |]. simpl. intros _.
    unfold stored_record. rewrite lookup_insert_eq. simpl.
    apply lookup_insert_eq. }
  set (d1 := (acquire a mode_a ea dir).2) in *.
  assert (Hcont : contention b mode_b (now_check eb) (held_data b d1)
                  = if mode_b || mode_a
                    then Some (LockedBy (owner_id a)
                                 (now_stamp ea + seconds (timeout a)))
                    else None).
  { unfold contention. rewrite <- stored_record_held, Hrec.
    unfold live, expires_at. simpl.
    rewrite (proj2 (Z.ltb_lt _ _) Hlive).
    rewrite bool_decide_eq_true_2 by (intros Heq; by apply Ho). done. }
  rewrite (acquire_unfold b), Hb, Hcont.
  destruct (mode_b || mode_a) eqn:Hm; simpl.
  - split; [done |]. intros _.
    rewrite stored_record_ensure_any.
    rewrite <- (stored_record_same a b) by done. exact Hrec.
  - split; [done | done].
Qed.

Lemma held_lock_admits_only_shared_witness :
  (acquire (lock_of "coder-2") false (at_second false 10) (held_by_coder1 true)).1.1
    = Raised (FileLockException (LockedBy "coder-1" (seconds 30))).
Proof.
  apply (held_lock_admits_only_shared (lock_of "coder-1") (lock_of "coder-2")
           true false (at_second false 0) (at_second false 10) ∅).
  - reflexivity.
  - reflexivity.
  - discriminate.
  - vm_compute. reflexivity.
  - reflexivity.
  - vm_compute. reflexivity.
Defined.

(** X2.  After a granted [acquire], [is_locked] (lock file readable)
    answers [True] exactly until the expiry, the time of the call plus the
    timeout, and with an owner filter only for the holder. *)
Theorem is_locked_after_acquire l mode e dir by_owner now :
  (acquire l mode e dir).1.1 = Returned true →
  is_locked (acquire l mode e dir).1.2 by_owner false now (acquire l mode e dir).2
  = (now <? now_stamp e + seconds (timeout l))%Z
    && owner_matches by_owner (owner_id l).
Proof.
  rewrite acquire_unfold. destruct (flock_busy e); [done |].
  destruct (contention _ _ _ _); [done |]. simpl. intros _.
  unfold is_locked. simpl. rewrite lookup_insert_eq, lookup_insert_eq.
  unfold live, expires_at. simpl.
  destruct (now <? now_stamp e + seconds (timeout l))%Z; [| done].
  by destruct by_owner.
Qed.

Lemma is_locked_after_acquire_witness :
  is_locked (acquire (lock_of "coder-1") true (at_second false 0) ∅).1.2
    (Some "coder-2") false (seconds 5)
    (acquire (lock_of "coder-1") true (at_second false 0) ∅).2
  = (seconds 5 <? now_stamp (at_second false 0)
                  + seconds (timeout (lock_of "coder-1")))%Z
    && owner_matches (Some "coder-2") (owner_id (lock_of "coder-1")).
Proof.
  apply (is_locked_after_acquire (lock_of "coder-1") true (at_second false 0) ∅
           (Some "coder-2") (seconds 5)).
  vm_compute. reflexivity.
Defined.

(** X3.  [acquire] then [release] by the same object (lock file not busy):
    the release returns [True], clears the flag, removes the record of the
    resource and gives back to every other resource the record it had
    before the acquire; releasing once more returns [False] and changes
    nothing. *)
Theorem acquire_release_round_trip l mode e dir :
  (acquire l mode e dir).1.1 = Returned true →
  let a := acquire l mode e dir in
  let r := release a.1.2 false a.2 in
  r.1.1 = true ∧ locked r.1.2 = false ∧ stored_record l r.2 = None ∧
  (∀ l', file_path l' ≠ file_path l →
         stored_record l' r.2 = stored_record l' dir) ∧
  release r.1.2 false r.2 = (false, r.1.2, r.2).
Proof.
  intros Ha a r. subst r a. revert Ha.
  rewrite acquire_unfold. destruct (flock_busy e); [done |].
  destruct (contention _ _ _ _); [done |]. simpl. intros _.
  set (data1 := <[file_path l := fresh_record l mode e]> (held_data l dir)).
  set (d1 := <[lock_file_path l := Decoded data1]> (ensure_lock_file l dir)).
  set (l1 := {| file_path := file_path l; owner_id := owner_id l;
                timeout := timeout l; lock_file_path := lock_file_path l;
                lock_data := Some (fresh_record l mode e); locked := true |}).
  assert (Hrel : release l1 false d1
                 = (true, set_locked l1 false,
                    <[lock_file_path l := Decoded (delete (file_path l) data1)]> d1)).
  { erewrite release_unfold; [| done | apply lookup_insert_eq]. simpl.
    subst data1. rewrite lookup_insert_eq. simpl.
    by rewrite bool_decide_eq_true_2. }
  rewrite Hrel. simpl.
  split; [done |]. split; [done |].
  split.
  { rewrite stored_record_insert, decide_True by done. apply lookup_delete_eq. }
  split; [| done].
  intros l' Hne. subst d1 data1. rewrite !stored_record_insert. case_decide as Hk.
  - rewrite lookup_delete_ne, lookup_insert_ne by done.
    by apply held_data_stored.
  - apply stored_record_ensure_any.
Qed.

Lemma acquire_release_round_trip_witness :
  let a := acquire (lock_of "coder-2") false (at_second false 40) (held_by_coder1 true) in
  let r := release a.1.2 false a.2 in
  r.1.1 = true ∧ locked r.1.2 = false ∧
  stored_record (lock_of "coder-2") r.2 = None ∧
  (∀ l', file_path l' ≠ file_path (lock_of "coder-2") →
         stored_record l' r.2 = stored_record l' (held_by_coder1 true)) ∧
  release r.1.2 false r.2 = (false, r.1.2, r.2).
Proof.
  apply (acquire_release_round_trip (lock_of "coder-2") false
           (at_second false 40) (held_by_coder1 true)).
  vm_compute. reflexivity.
Defined.

(** X4.  What the lock operations never touch.  [acquire] leaves the
    records of all other resources as they are, and when it raises it
    leaves every record as it is; [release] leaves every record of another
    owner as it is, and without a preceding successful [acquire] (flag not
    set) it returns [False] and does nothing. *)
Theorem lock_operations_leave_others l mode e busy dir :
  (∀ l', file_path l' ≠ file_path l →
         stored_record l' (acquire l mode e dir).2 = stored_record l' dir) ∧
  (raises (acquire l mode e dir).1.1 →
   ∀ l', stored_record l' (acquire l mode e dir).2 = stored_record l' dir) ∧
  (∀ l' info, stored_record l' dir = Some info →
              li_owner_id info ≠ owner_id l →
              stored_record l' (release l busy dir).2 = Some info) ∧
  (locked l = false → release l busy dir = (false, l, dir)).
Proof.
  split; [intros l' Hne; by apply stored_record_acquire_other |].
  split; [intros Hr l'; by apply stored_record_acquire_raised |].
  split.
  - intros l' info Hs Ho. rewrite <- Hs.
    apply stored_record_release_kept. right. intros info' Hs'. congruence.
  - intros Hl. unfold release. by rewrite Hl.
Qed.

Lemma lock_operations_leave_others_witness :
  stored_record (lock_of "coder-1")
    (release (acquire (lock_of "coder-2") false (at_second false 40) ∅).1.2
             false (held_by_coder1 true)).2
  = Some (fresh_record (lock_of "coder-1") true (at_second false 0)).
Proof.
  apply (lock_operations_leave_others
           (acquire (lock_of "coder-2") false (at_second false 40) ∅).1.2
           false (at_second false 0) false (held_by_coder1 true)).
  - vm_compute. reflexivity.
  - discriminate.
Defined.

(** *** Listing the active locks *)







End LockManagerUse.

(** * Further properties of the goal-graph store *)

Section GoalGraphStoreUse.
Import FileUtils LockSpec Tasker StoreSpec.

Variable py_hash : string → Z.
Variable FILE_LOCK_TIMEOUT : Z.

Local Abbreviation file_lock := (file_lock py_hash FILE_LOCK_TIMEOUT).
Local Abbreviation lock_for := (lock_for py_hash FILE_LOCK_TIMEOUT).
Local Abbreviation load_goal_graph := (load_goal_graph py_hash FILE_LOCK_TIMEOUT).
Local Abbreviation _save_goal_graph := (_save_goal_graph py_hash FILE_LOCK_TIMEOUT).

Lemma file_lock_refused_locks {A} path owner exclusive e
    (body : gmap string file_content → outcome A * gmap string file_content) w l' :
  ¬ obtainable (FileLock_init py_hash path owner FILE_LOCK_TIMEOUT)
      exclusive (on_acquire e) (locks w) →
  stored_record l' (locks (file_lock path owner exclusive e body w).2)
  = stored_record l' (locks w).
Proof.
  rewrite obtainable_contention. intros Hno.
  unfold Tasker.file_lock. rewrite acquire_unfold.
  destruct (flock_busy (on_acquire e)) eqn:Hb; simpl.
  - apply stored_record_ensure_any.
  - destruct (contention _ _ _ _) eqn:Hc; [| by destruct Hno].
    simpl. apply stored_record_ensure_any.
Qed.

(** X6.  [file_lock] does not leave its lock behind and does not disturb
    the others.  When the lock is obtained and the lock file is not busy
    at the release, afterwards the resource has no record, whatever the
    body did; the records of all other resources are as before.  When the
    lock is refused, the body does not run: the files and every record are
    as before, and [FileLockException] comes out. *)
Theorem file_lock_cleans_up {A} path owner exclusive e
    (body : gmap string file_content → outcome A * gmap string file_content) w :
  let l := FileLock_init py_hash path owner FILE_LOCK_TIMEOUT in
  let r := file_lock path owner exclusive e body w in
  (obtainable l exclusive (on_acquire e) (locks w) →
     r.1 = (body (files w)).1 ∧ files r.2 = (body (files w)).2 ∧
     (release_busy e = false → stored_record l (locks r.2) = None) ∧
     ∀ l', file_path l' ≠ path →
           stored_record l' (locks r.2) = stored_record l' (locks w)) ∧
  (¬ obtainable l exclusive (on_acquire e) (locks w) →
     is_FileLockException r.1 ∧ files r.2 = files w ∧
     ∀ l', stored_record l' (locks r.2) = stored_record l' (locks w)).
Proof.
  intros l r. subst l r. split.
  - intros Hok. rewrite (file_lock_granted py_hash FILE_LOCK_TIMEOUT) by done.
    simpl. split; [done |]. split; [done |]. split.
    + intros Hrb.
      rewrite after_use_granted by done.
      simpl. rewrite Hrb.
      rewrite stored_record_insert, decide_True by done. apply lookup_delete_eq.
    + intros l' Hne.
      by apply after_use_other.
  - intros Hno.
    destruct (file_lock_refused py_hash FILE_LOCK_TIMEOUT path owner exclusive
                e body w Hno) as [[why Hr] Hf].
    split; [by rewrite Hr |]. split; [done |].
    intros l'. by apply file_lock_refused_locks.
Qed.

Lemma not_obtainable_frame l l' exclusive e dir dir' :
  stored_record l' dir' = stored_record l dir →
  owner_id l' = owner_id l →
  ¬ obtainable l exclusive e dir → ¬ obtainable l' exclusive e dir'.
Proof.
  intros Hs Ho Hno Hok. apply Hno.
  by apply (obtainable_frame l' l exclusive e dir' dir).
Qed.

(** The world after [_save_goal_graph], by the outcome of its first use of
    [file_lock]. *)
Lemma save_goal_graph_world self g dir_mtime e1 e2 w :
  (_save_goal_graph self g dir_mtime e1 e2 w).1 = Returned () ∧
  (_save_goal_graph self g dir_mtime e1 e2 w).2 =
  let d := bool_decide (is_Some dir_mtime) in
  let snap := snapshot_path self (default 0%Z dir_mtime) in
  let latest := path_of self "latest.json" in
  let r1 := file_lock snap (id self) true e1 (dump_to d snap g) w in
  match r1.1 with
  | Raised _ => r1.2
  | Returned _ => (file_lock latest (id self) true e2 (dump_to d latest g) r1.2).2
  end.
Proof.
  unfold Tasker._save_goal_graph. cbv zeta.
  destruct (Tasker.file_lock _ _ (snapshot_path _ _) _ _ _ _ _) as [[[]|x] w1];
    simpl; [| done].
  by destruct (Tasker.file_lock _ _ _ _ _ _ _ _) as [[[]|x] w2].
Qed.

(** Into a missing directory nothing is written. *)
Lemma save_goal_graph_missing_dir self g e1 e2 w :
  files (_save_goal_graph self g None e1 e2 w).2 = files w.
Proof.
  destruct (save_goal_graph_world self g None e1 e2 w) as [_ ->]. cbv zeta.
  set (snap := snapshot_path self (default 0%Z None)).
  destruct (obtainable_dec (lock_for self snap) true
              (on_acquire e1) (locks w)) as [Hok | Hno].
  - by rewrite (file_lock_granted py_hash FILE_LOCK_TIMEOUT) by exact Hok.
  - destruct (file_lock_refused py_hash FILE_LOCK_TIMEOUT snap (id self) true
                e1 (dump_to (bool_decide (is_Some (@None Z))) snap g) w Hno)
      as [[why Hr] Hf].
    by rewrite Hr.
Qed.

(** X7.  [_save_goal_graph] never raises: what goes wrong is logged and
    dropped, and what it has written tells what went wrong.  If the
    goal-graph directory is missing, or the lock on the snapshot is
    refused, no file is written, "latest.json" included.  If the directory
    exists, that lock is obtained and the one on "latest.json" is refused,
    the snapshot holds the graph and "latest.json" is as before.  With the
    directory and both locks, both hold the graph.  No other file is ever
    touched. *)
Theorem save_goal_graph_writes self g dir_mtime e1 e2 w :
  let snap := snapshot_path self (default 0%Z dir_mtime) in
  let latest := path_of self "latest.json" in
  let r := _save_goal_graph self g dir_mtime e1 e2 w in
  r.1 = Returned () ∧
  (dir_mtime = None → files r.2 = files w) ∧
  (¬ obtainable (lock_for self snap) true (on_acquire e1) (locks w) →
     files r.2 = files w) ∧
  (is_Some dir_mtime →
   obtainable (lock_for self snap) true (on_acquire e1) (locks w) →
   ¬ obtainable (lock_for self latest) true (on_acquire e2) (locks w) →
     files r.2 = <[snap := Json g]> (files w)) ∧
  (is_Some dir_mtime →
   obtainable (lock_for self snap) true (on_acquire e1) (locks w) →
   obtainable (lock_for self latest) true (on_acquire e2) (locks w) →
     files r.2 = <[latest := Json g]> (<[snap := Json g]> (files w))) ∧
  (∀ p, p ≠ snap → p ≠ latest → files r.2 !! p = files w !! p).
Proof.
  intros snap latest r. subst snap latest r.
  destruct (save_goal_graph_world self g dir_mtime e1 e2 w) as [Hret Hw].
  split; [exact Hret |]. rewrite Hw. clear Hret Hw. cbv zeta.
  set (snap := snapshot_path self (default 0%Z dir_mtime)).
  set (latest := path_of self "latest.json").
  set (d := bool_decide (is_Some dir_mtime)).
  set (after := match (file_lock snap (id self) true e1 (dump_to d snap g) w).1 with
                | Returned _ => _
                | Raised _ => _
                end).
  assert (Hrefused1 :
    ¬ obtainable (lock_for self snap) true (on_acquire e1) (locks w) →
    files after = files w).
  { intros Hno. subst after.
    destruct (file_lock_refused py_hash FILE_LOCK_TIMEOUT snap (id self) true
                e1 (dump_to d snap g) w Hno) as [[why Hr] Hf].
    by rewrite Hr. }
  assert (Hframe : obtainable (lock_for self snap) true (on_acquire e1) (locks w) →
    stored_record (lock_for self latest)
      (after_use (lock_for self snap) true e1 (locks w))
    = stored_record (lock_for self latest) (locks w)).
  { intros Hok. apply after_use_other; [done |]. apply snapshot_path_not_latest. }
  assert (Hmissing : d = false → files after = files w).
  { intros Hd. subst after.
    destruct (obtainable_dec (lock_for self snap) true
                (on_acquire e1) (locks w)) as [Hok | Hno].
    - rewrite (file_lock_granted py_hash FILE_LOCK_TIMEOUT) by exact Hok.
      by rewrite Hd.
    - destruct (file_lock_refused py_hash FILE_LOCK_TIMEOUT snap (id self) true
                  e1 (dump_to d snap g) w Hno) as [[why Hr] Hf].
      by rewrite Hr. }
  assert (Hstep : d = true →
    obtainable (lock_for self snap) true (on_acquire e1) (locks w) →
    after = (file_lock latest (id self) true e2 (dump_to true latest g)
               {| locks := after_use (lock_for self snap) true e1 (locks w);
                  files := <[snap := Json g]> (files w) |}).2).
  { intros Hd Hok. subst after.
    rewrite (file_lock_granted py_hash FILE_LOCK_TIMEOUT) by exact Hok.
    by rewrite Hd. }
  assert (Hrefused2 : d = true →
    obtainable (lock_for self snap) true (on_acquire e1) (locks w) →
    ¬ obtainable (lock_for self latest) true (on_acquire e2) (locks w) →
    files after = <[snap := Json g]> (files w)).
  { intros Hd Hok Hno. rewrite Hstep by done.
    apply (file_lock_refused py_hash FILE_LOCK_TIMEOUT latest (id self) true e2
             (dump_to true latest g)).
    simpl. eapply not_obtainable_frame; [| reflexivity | exact Hno].
    by apply Hframe. }
  assert (Hgranted : d = true →
    obtainable (lock_for self snap) true (on_acquire e1) (locks w) →
    obtainable (lock_for self latest) true (on_acquire e2) (locks w) →
    files after = <[latest := Json g]> (<[snap := Json g]> (files w))).
  { intros Hd Hok1 Hok2. rewrite Hstep by done.
    rewrite (file_lock_granted py_hash FILE_LOCK_TIMEOUT); [done |].
    simpl. eapply obtainable_frame; [| reflexivity | exact Hok2].
    by apply Hframe. }
  assert (Hd : ∀ b, d = b ↔ (if b then is_Some dir_mtime else dir_mtime = None)).
  { intros b. subst d. destruct dir_mtime as [ts|], b; simpl;
      split; try done; by eauto. }
  split.
  { intros Hnone. apply Hmissing. by apply (Hd false). }
  split; [exact Hrefused1 |].
  split.
  { intros Hsome. apply Hrefused2. by apply (Hd true). }
  split.
  { intros Hsome. apply Hgranted. by apply (Hd true). }
  intros p Hp1 Hp2.
  destruct d eqn:Hdv; [| by rewrite Hmissing].
  destruct (obtainable_dec (lock_for self snap) true
              (on_acquire e1) (locks w)) as [Hok1 | Hno1];
    [| by rewrite Hrefused1].
  destruct (obtainable_dec (lock_for self latest) true
              (on_acquire e2) (locks w)) as [Hok2 | Hno2].
  - rewrite Hgranted by done. by rewrite !lookup_insert_ne.
  - rewrite Hrefused2 by done. by rewrite lookup_insert_ne.
Qed.

(** X8.  [load_goal_graph] only reads: whatever it returns or raises, the
    files are as before, and so are the lock records of all other
    resources. *)
Theorem load_goal_graph_reads_only self filename e w :
  files (load_goal_graph self filename e w).2 = files w ∧
  ∀ l', file_path l' ≠ path_of self filename →
        stored_record l' (locks (load_goal_graph self filename e w).2)
        = stored_record l' (locks w).
Proof.
  unfold Tasker.load_goal_graph.
  destruct (files w !! path_of self filename) as [c|] eqn:Hc; [| done].
  destruct (obtainable_dec
              (lock_for self (path_of self filename)) false
              (on_acquire e) (locks w)) as [Hok | Hno].
  - rewrite (file_lock_granted py_hash FILE_LOCK_TIMEOUT) by exact Hok.
    assert (Hbody : (load_from (path_of self filename) (files w)).2 = files w).
    { unfold load_from. rewrite Hc. by destruct c. }
    assert (Hlocks : ∀ l', file_path l' ≠ path_of self filename →
              stored_record l'
                (after_use (lock_for self (path_of self filename)) false e (locks w))
              = stored_record l' (locks w)).
    { intros l' Hne. by apply after_use_other. }
    destruct (load_from (path_of self filename) (files w)) as [[g | x] fs];
      simpl in *; [done |].
    by destruct x.
  - destruct (file_lock_refused py_hash FILE_LOCK_TIMEOUT
                (path_of self filename) (id self) false e
                (load_from (path_of self filename)) w Hno) as [[why Hr] Hf].
    assert (Hlocks : ∀ l', stored_record l'
              (locks (file_lock (path_of self filename) (id self) false e
                        (load_from (path_of self filename)) w).2)
              = stored_record l' (locks w)).
    { intros l'. by apply file_lock_refused_locks. }
    destruct (Tasker.file_lock _ _ _ _ _ _ _ _) as [r w1].
    simpl in *. subst r. simpl. done.
Qed.


(** X10.  The two readers of "latest.json".
    [AgentManager._load_latest_goal_graph] gives back the graph that
    [TaskerAgent._save_goal_graph] has saved in the same, existing,
    directory with both of its locks obtained; after a save into a missing
    directory it finds what it found before.  It agrees with
    [TaskerAgent.load_goal_graph]: when it finds a graph, [load_goal_graph]
    returns that graph whenever it obtains its lock; when it finds none,
    [load_goal_graph] returns the empty graph or raises. *)
Theorem load_latest_after_save self g ts e1 e2 e w :
  let latest_of fs :=
    AgentManager._load_latest_goal_graph (goal_graph_dir self) fs in
  (obtainable (lock_for self (snapshot_path self ts))
     true (on_acquire e1) (locks w) →
   obtainable (lock_for self (path_of self "latest.json"))
     true (on_acquire e2) (locks w) →
   latest_of (files (_save_goal_graph self g (Some ts) e1 e2 w).2) = Some g) ∧
  latest_of (files (_save_goal_graph self g None e1 e2 w).2)
    = latest_of (files w) ∧
  (∀ g', latest_of (files w) = Some g' →
     obtainable (lock_for self (path_of self "latest.json"))
       false (on_acquire e) (locks w) →
     (load_goal_graph self "latest.json" e w).1 = Returned g') ∧
  (latest_of (files w) = None →
     (load_goal_graph self "latest.json" e w).1
       = Returned {| tasks := Some [] |} ∨
     raises (load_goal_graph self "latest.json" e w).1).
Proof.
  intros latest_of. subst latest_of. cbv beta.
  split.
  { intros H1 H2.
    destruct (save_goal_graph_granted py_hash FILE_LOCK_TIMEOUT self g ts
                e1 e2 w H1 H2) as (Hfiles & _).
    unfold AgentManager._load_latest_goal_graph.
    rewrite Hfiles. unfold path_of. by rewrite lookup_insert_eq. }
  split.
  { by rewrite save_goal_graph_missing_dir. }
  unfold AgentManager._load_latest_goal_graph.
  change (goal_graph_dir self +:+ "/" +:+ "latest.json")
    with (path_of self "latest.json").
  destruct (files w !! path_of self "latest.json") as [c|] eqn:Hc.
  - split.
    + intros g' Hg' Hok.
      rewrite (load_goal_graph_granted py_hash FILE_LOCK_TIMEOUT _ _ _ _ c Hc Hok).
      destruct c; try done. by injection Hg' as <-.
    + intros Hnone.
      destruct (obtainable_dec (lock_for self (path_of self "latest.json"))
                  false (on_acquire e) (locks w)) as [Hok | Hno].
      * rewrite (load_goal_graph_granted py_hash FILE_LOCK_TIMEOUT _ _ _ _ c Hc Hok).
        destruct c; try done; [by left | by right | by right].
      * right.
        destruct (load_goal_graph_refused py_hash FILE_LOCK_TIMEOUT
                    self "latest.json" e w) as [why ->]; [by eauto | done | done].
  - split; [done |]. intros _. left.
    by rewrite (load_goal_graph_missing py_hash FILE_LOCK_TIMEOUT).
Qed.

End GoalGraphStoreUse.

Section GoalGraphStoreUseSamples.
Import FileUtils LockSpec Tasker StoreSpec.

(** In [contended_world] the lock of "coder-1" on "latest.json" is live
    until second 30 and nothing else is locked. *)
Lemma latest_obtainable_at_40 :
  obtainable (FileLock_init res_hash "/data/goal_graphs/latest.json" "tasker-1" 30)
    true (on_acquire (calm 40)) (locks contended_world).
Proof.
  split; [reflexivity |].
  intros (info & Hs & Hlive & _). vm_compute in Hs.
  injection Hs as <-. vm_compute in Hlive. discriminate Hlive.
Qed.

Lemma latest_refused_at_10 :
  ¬ obtainable (FileLock_init res_hash "/data/goal_graphs/latest.json" "tasker-1" 30)
      true (on_acquire (calm 10)) (locks contended_world).
Proof.
  intros [_ Hno]. apply Hno.
  exists (fresh_record (lock_of "coder-1") true (at_second false 0)).
  split; [vm_compute; reflexivity |]. split; [vm_compute; reflexivity |].
  split; [discriminate | by left].
Qed.

Lemma snapshot_obtainable_at_9 :
  obtainable
    (FileLock_init res_hash (snapshot_path tasker 1700000000) "tasker-1" 30)
    true (on_acquire (calm 9)) (locks contended_world).
Proof.
  split; [reflexivity |].
  intros (info & Hs & _). vm_compute in Hs. discriminate Hs.
Qed.

(** The lock taken at second 40 for a write is gone afterwards. *)
Lemma file_lock_cleans_up_witness :
  stored_record
    (FileLock_init res_hash "/data/goal_graphs/latest.json" "tasker-1" 30)
    (locks (file_lock res_hash 30 "/data/goal_graphs/latest.json" "tasker-1"
              true (calm 40)
              (dump_to true "/data/goal_graphs/latest.json" bare_graph)
              contended_world).2) = None.
Proof.
  destruct (proj1 (file_lock_cleans_up res_hash 30
                     "/data/goal_graphs/latest.json" "tasker-1" true (calm 40)
                     (dump_to true "/data/goal_graphs/latest.json" bare_graph)
                     contended_world) latest_obtainable_at_40)
    as (_ & _ & Hgone & _).
  apply Hgone. reflexivity.
Defined.

(** Saving while "coder-1" holds "latest.json": only the snapshot is
    written. *)
Lemma save_goal_graph_writes_witness :
  files (_save_goal_graph res_hash 30 tasker bare_graph (Some 1700000000%Z)
           (calm 9) (calm 10) contended_world).2
  = <[snapshot_path tasker 1700000000 := Json bare_graph]> (files contended_world).
Proof.
  apply (proj1 (proj2 (proj2 (proj2
           (save_goal_graph_writes res_hash 30 tasker bare_graph
              (Some 1700000000%Z) (calm 9) (calm 10) contended_world))))).
  - by eexists.
  - exact snapshot_obtainable_at_9.
  - exact latest_refused_at_10.
Defined.

Lemma load_goal_graph_reads_only_witness :
  files (load_goal_graph res_hash 30 tasker "latest.json" (calm 10)
           contended_world).2 = files contended_world.
Proof.
  apply (load_goal_graph_reads_only res_hash 30 tasker "latest.json" (calm 10)
           contended_world).
Defined.


Lemma load_latest_after_save_witness :
  AgentManager._load_latest_goal_graph (goal_graph_dir tasker)
    (files (_save_goal_graph res_hash 30 tasker bare_graph (Some 1700000000%Z)
              (calm 0) (calm 1) empty_world).2) = Some bare_graph.
Proof.
  apply (proj1 (load_latest_after_save res_hash 30 tasker bare_graph
                  1700000000%Z (calm 0) (calm 1) (calm 2) empty_world)).
  - split; [reflexivity |]. intros (info & Hs & _). vm_compute in Hs. discriminate Hs.
  - split; [reflexivity |]. intros (info & Hs & _). vm_compute in Hs. discriminate Hs.
Defined.

End GoalGraphStoreUseSamples.

(** * Reading a graph out of a response *)

Section Responses.
Import Tasker StoreSpec.

Lemma s_app_nil (t : string) : "" +:+ t = t.
Proof. reflexivity. Qed.

Lemma s_app_cons a (s t : string) : String a s +:+ t = String a (s +:+ t).
Proof. reflexivity. Qed.

Lemma s_app_assoc (a b c : string) : (a +:+ b) +:+ c = a +:+ (b +:+ c).
Proof.
  induction a as [|x a IH]; [done |].
  by rewrite !s_app_cons, IH.
Qed.

Lemma s_length_app (a b : string) :
  String.length (a +:+ b) = String.length a + String.length b.
Proof.
  induction a as [|x a IH]; [done |].
  rewrite s_app_cons. simpl. by rewrite IH.
Qed.

Lemma has_char_app c (a b : string) :
  has_char c (a +:+ b) = has_char c a || has_char c b.
Proof.
  induction a as [|x a IH]; [done |].
  rewrite s_app_cons. simpl. by rewrite IH, orb_assoc.
Qed.

Lemma find_char_None c s : find_char c s = None ↔ has_char c s = false.
Proof.
  induction s as [|a s IH]; simpl; [done |].
  case_bool_decide; simpl; [done |].
  rewrite <- IH. by destruct (find_char c s).
Qed.

Lemma rfind_char_None c s : rfind_char c s = None ↔ has_char c s = false.
Proof.
  induction s as [|a s IH]; simpl; [done |].
  destruct (rfind_char c s) as [i|].
  - split; [done |]. rewrite orb_false_iff. intros [_ H].
    apply IH in H. done.
  - destruct IH as [IH _]. rewrite (IH eq_refl), orb_false_r.
    by case_bool_decide.
Qed.

(** The first occurrence lies behind a prefix that has none. *)
Lemma find_char_app c (pre s : string) :
  has_char c pre = false →
  find_char c (pre +:+ String c s) = Some (String.length pre).
Proof.
  induction pre as [|a pre IH].
  - intros _. rewrite s_app_nil. simpl. by rewrite bool_decide_eq_true_2.
  - intros H. simpl in H. apply orb_false_iff in H. destruct H as [Ha Hpre].
    rewrite s_app_cons. simpl. rewrite Ha. by rewrite IH.
Qed.

(** The last occurrence lies before a suffix that has none. *)
Lemma rfind_char_app c (a post : string) :
  has_char c post = false →
  rfind_char c (a +:+ String c post) = Some (String.length a).
Proof.
  intros Hpost. induction a as [|x a IH].
  - rewrite s_app_nil. simpl.
    rewrite (proj2 (rfind_char_None c post) Hpost).
    by rewrite bool_decide_eq_true_2.
  - rewrite s_app_cons. simpl. by rewrite IH.
Qed.

Lemma substring_skip (pre t : string) m :
  String.substring (String.length pre) m (pre +:+ t) = String.substring 0 m t.
Proof.
  induction pre as [|a pre IH]; [done |].
  rewrite s_app_cons. simpl. exact IH.
Qed.

Lemma substring_take (body post : string) :
  String.substring 0 (String.length body) (body +:+ post) = body.
Proof.
  induction body as [|a body IH].
  - rewrite s_app_nil. by destruct post.
  - rewrite s_app_cons. simpl. by rewrite IH.
Qed.

Lemma replace_from_cons old new k a s :
  replace_from old new k (String a s) =
  match k with
  | S k' => replace_from old new k' s
  | O =>
      if String.prefix old (String a s)
      then new +:+ replace_from old new (String.length old - 1) s
      else String a (replace_from old new 0 s)
  end.
Proof. by destruct k. Qed.

(** What [replace] writes comes from the string or from [new]. *)
Lemma has_char_replace_from x old new s : ∀ k,
  has_char x s = false → has_char x new = false →
  has_char x (replace_from old new k s) = false.
Proof.
  induction s as [|a s IH]; intros k Hs Hnew; [done |].
  simpl in Hs. apply orb_false_iff in Hs. destruct Hs as [Ha Hs].
  rewrite replace_from_cons. destruct k as [|k]; [| by apply IH].
  destruct (String.prefix old (String a s)).
  - rewrite has_char_app, Hnew. simpl. by apply IH.
  - simpl. rewrite Ha. simpl. by apply IH.
Qed.

Lemma prefix_one c a s :
  String.prefix (String c "") (String a s) = bool_decide (c = a).
Proof.
  simpl. destruct (ascii_dec c a) as [-> | Hne].
  - rewrite bool_decide_eq_true_2 by done. by destruct s.
  - by rewrite bool_decide_eq_false_2.
Qed.

(** Replacing a character by a text without it removes it. *)
Lemma has_char_replaced c new s : ∀ k,
  has_char c new = false →
  has_char c (replace_from (String c "") new k s) = false.
Proof.
  induction s as [|a s IH]; intros k Hnew; [done |].
  rewrite replace_from_cons. destruct k as [|k]; [| by apply IH].
  rewrite prefix_one. case_bool_decide as Hc.
  - rewrite has_char_app, Hnew. simpl. by apply IH.
  - simpl. rewrite bool_decide_eq_false_2 by congruence. simpl. by apply IH.
Qed.

Lemma replace_absent old new s :
  occurs old s = false → replace old new s = s.
Proof.
  unfold replace. induction s as [|a s IH]; [done |].
  intros H.
  assert (Hp : String.prefix old (String a s) = false ∧ occurs old s = false).
  { change (occurs old (String a s))
      with (String.prefix old (String a s) || occurs old s) in H.
    by apply orb_false_iff in H. }
  destruct Hp as [Hp Ho].
  rewrite replace_from_cons, Hp. by rewrite IH.
Qed.

(** X11.  [_clean_json_string] returns a text with no single quote and no
    newline in it, whatever it is given; and a text in which none of the
    four patterns it rewrites occurs (single quote, newline, a comma before
    a closing brace or bracket) is returned as it is. *)
Theorem clean_json_string_result s :
  has_char "'"%char (_clean_json_string s) = false ∧
  has_char (ascii_of_nat 10) (_clean_json_string s) = false ∧
  (occurs "'" s = false → occurs newline s = false →
   occurs ",}" s = false → occurs ",]" s = false →
   _clean_json_string s = s).
Proof.
  unfold _clean_json_string, replace.
  set (r1 := replace_from "'" double_quote 0 s).
  set (r2 := replace_from newline " " 0 r1).
  set (r3 := replace_from ",}" "}" 0 r2).
  assert (H1 : has_char "'"%char r1 = false).
  { by apply has_char_replaced. }
  assert (H2 : has_char "'"%char r2 = false).
  { by apply has_char_replace_from. }
  assert (H2' : has_char (ascii_of_nat 10) r2 = false).
  { by apply (has_char_replaced (ascii_of_nat 10) " " r1 0). }
  assert (H3 : has_char "'"%char r3 = false).
  { by apply has_char_replace_from. }
  assert (H3' : has_char (ascii_of_nat 10) r3 = false).
  { by apply has_char_replace_from. }
  split; [by apply has_char_replace_from |].
  split; [by apply has_char_replace_from |].
  intros Hq Hn Hb Hk. subst r3 r2 r1.
  fold (replace "'" double_quote s). rewrite (replace_absent _ _ _ Hq).
  fold (replace newline " " s). rewrite (replace_absent _ _ _ Hn).
  fold (replace ",}" "}" s). rewrite (replace_absent _ _ _ Hb).
  fold (replace ",]" "]" s). by rewrite (replace_absent _ _ _ Hk).
Qed.

Lemma clean_json_string_result_witness :
  _clean_json_string "{}" = "{}".
Proof.
  apply (clean_json_string_result "{}"); reflexivity.
Defined.

Section WithParser.

Variable json_loads : string → option goal_graph.

(** X12.  [_extract_json] never raises.  A response with no opening brace,
    or with no closing brace, gives the empty graph.  In a response that
    is a JSON text (from an opening brace to a closing brace) with free
    text around it, no opening brace before it and no closing brace after
    it, exactly that text is parsed: if it parses, its graph is the
    result; otherwise the cleaned text is parsed, and the empty graph is
    the result if that fails too. *)
Theorem extract_json_strips_free_text :
  (∀ text, has_char "{"%char text = false ∨ has_char "}"%char text = false →
           _extract_json json_loads text = empty_graph) ∧
  (∀ pre inner post,
     has_char "{"%char pre = false → has_char "}"%char post = false →
     ∀ body, body = String "{"%char inner → (∃ b, body = b +:+ "}") →
     _extract_json json_loads (pre +:+ body +:+ post) =
       match json_loads body with
       | Some g => g
       | None =>
           match json_loads (_clean_json_string body) with
           | Some g => g
           | None => empty_graph
           end
       end).
Proof.
  split.
  - intros text [H | H]; unfold _extract_json.
    + by rewrite (proj2 (find_char_None _ _) H).
    + rewrite (proj2 (rfind_char_None _ _) H). by destruct (find_char _ _).
  - intros pre inner post Hpre Hpost body Hstart [b Hend].
    unfold _extract_json.
    assert (Hfind : find_char "{"%char (pre +:+ body +:+ post)
                    = Some (String.length pre)).
    { rewrite Hstart, s_app_cons. by apply find_char_app. }
    assert (Hrfind : rfind_char "}"%char (pre +:+ body +:+ post)
                     = Some (String.length pre + String.length b)).
    { rewrite Hend, s_app_assoc, <- (s_app_assoc pre b), s_app_cons, s_app_nil.
      rewrite rfind_char_app by done. by rewrite s_length_app. }
    rewrite Hfind, Hrfind.
    assert (Hslice : slice (String.length pre)
                       (String.length pre + String.length b + 1)
                       (pre +:+ body +:+ post) = body).
    { unfold slice.
      replace (String.length pre + String.length b + 1 - String.length pre)
        with (String.length body)
        by (rewrite Hend, s_length_app; simpl; lia).
      by rewrite substring_skip, substring_take. }
    by rewrite Hslice.
Qed.

End WithParser.

Lemma extract_json_strips_free_text_witness :
  _extract_json toy_loads ("Here is the graph: " +:+ "{}" +:+ " Hope it helps.")
  = {| tasks := None |}.
Proof.
  apply (proj2 (extract_json_strips_free_text toy_loads)
           "Here is the graph: " "}" " Hope it helps.").
  - reflexivity.
  - reflexivity.
  - reflexivity.
  - by exists "{".
Defined.

End Responses.

(** * Further properties of the scheduler *)

Section SchedulerUse.
Import Tasker AgentManager SchedulerSpec.

Lemma take_take w w' t : take w (take w' t) = take w t.
Proof. done. Qed.

(** The tasks at the positions of the ready list are taken by a worker of
    the pool. *)
Lemma assign_loop_tasks_taken a0 pool' avail : ∀ i st j,
  j ∈ avail.*1 →
  ∃ w, w ∈ a0 :: pool' ∧
       graph_tasks (assign_loop a0 pool' i avail st) !! j
       = take w <$> graph_tasks st !! j.
Proof.
  induction avail as [|it rest IH]; intros i st j Hj; [by apply not_elem_of_nil in Hj |].
  simpl. destruct (decide (j ∈ rest.*1)) as [Hin | Hnin].
  - destruct (IH (S i) (assign_step a0 pool' i it st) j Hin) as (w & Hw & ->).
    exists w. split; [done |]. simpl. rewrite list_lookup_alter.
    destruct (decide (it.1 = j)) as [Heq | ?]; [| done].
    rewrite Heq. by destruct (graph_tasks st !! j).
  - rewrite assign_loop_tasks_other by done.
    rewrite fmap_cons, elem_of_cons in Hj. destruct Hj as [-> | ?]; [| done].
    exists (agent_at a0 pool' i). split; [apply agent_at_in_pool |].
    simpl. by rewrite list_lookup_alter_eq.
Qed.

Lemma assign_loop_assigned_other a0 pool' avail : ∀ i st k,
  k ∉ (λ it : nat * task, t_id it.2) <$> avail →
  assigned (assign_loop a0 pool' i avail st) !! k = assigned st !! k.
Proof.
  induction avail as [|it rest IH]; intros i st k Hk; simpl; [done |].
  rewrite fmap_cons, not_elem_of_cons in Hk. destruct Hk as [Hne Hk].
  rewrite IH by done. simpl. by rewrite lookup_insert_ne.
Qed.

Lemma assign_loop_assigned_new a0 pool' avail : ∀ i st k w,
  assigned (assign_loop a0 pool' i avail st) !! k = Some w →
  assigned st !! k = Some w ∨ w ∈ a0 :: pool'.
Proof.
  induction avail as [|it rest IH]; intros i st k w; simpl; [by left |].
  intros H. apply IH in H. destruct H as [H | H]; [| by right].
  simpl in H. rewrite lookup_insert in H.
  destruct (decide (t_id it.2 = k)); [| by left].
  injection H as <-. right. apply agent_at_in_pool.
Qed.

Lemma elem_of_share_head a0 pool' avail : ∀ i it,
  it ∈ avail →
  ∃ w, w ∈ a0 :: pool' ∧ t_id it.2 ∈ share a0 pool' w i avail.
Proof.
  induction avail as [|x rest IH]; intros i it Hin; [by apply not_elem_of_nil in Hin |].
  apply elem_of_cons in Hin. destruct Hin as [-> | Hin].
  - exists (agent_at a0 pool' i). split; [apply agent_at_in_pool |].
    simpl. rewrite bool_decide_eq_true_2 by done. by left.
  - destruct (IH (S i) it Hin) as (w & Hw & Hs). exists w. split; [done |].
    simpl. apply elem_of_app. by right.
Qed.

(** X13.  What a successful [assign_tasks] does to the state.  The graph
    keeps its length; every selectable task gets the status "In Progress"
    and as owner a worker of the pool, with its id, name, priority,
    description and dependencies unchanged, and its id becomes a key of
    [tasks_assigned]; every other task is left as it is.  Entries of [tasks_assigned] that were there stay, new ones
    name workers of the pool.  [tasks_completed], [files_modified], the
    pool and the approval are untouched. *)
Theorem assign_tasks_effects s a s' :
  assign_tasks s = (Returned a, s') →
  length (tasks_of s') = length (tasks_of s) ∧
  (∀ j t, tasks_of s !! j = Some t →
     (selectable s t →
        ∃ w t', w ∈ coder_agents s ∧ tasks_of s' !! j = Some t' ∧
                taken_by w t t' ∧
                is_Some (tasks_assigned s' !! t_id t)) ∧
     (¬ selectable s t → tasks_of s' !! j = Some t)) ∧
  (∀ k w, tasks_assigned s !! k = Some w → tasks_assigned s' !! k = Some w) ∧
  (∀ k w, tasks_assigned s' !! k = Some w →
          tasks_assigned s !! k = Some w ∨ w ∈ coder_agents s) ∧
  tasks_completed s' = tasks_completed s ∧
  files_modified s' = files_modified s ∧
  coder_agents s' = coder_agents s ∧
  goal_graph_approved s' = goal_graph_approved s.
Proof.
  intros (a0 & pool' & g & Hp & Hg & _ & Hst)%assign_tasks_returned.
  simpl in Hst. destruct Hst as [_ ->].
  set (ts := default [] (tasks g)).
  set (avail := sort_by (λ it : nat * task, sort_key it.2) (available_tasks s ts)).
  set (st0 := {| assignments := no_assignments (a0 :: pool');
                 assigned := tasks_assigned s; graph_tasks := ts |}).
  assert (Hts : tasks_of s = ts) by (unfold tasks_of; by rewrite Hg).
  assert (Hts' : ∀ j, j < length ts →
            tasks_of {| current_stage := "tasks_assigned";
                        goal_graph_approved := goal_graph_approved s;
                        tasks_assigned := assigned (assign_loop a0 pool' 0 avail st0);
                        tasks_completed := tasks_completed s;
                        files_modified := files_modified s;
                        coder_agents := coder_agents s;
                        qualitator_agent := qualitator_agent s;
                        goal_graph := Some {| tasks := (λ _, graph_tasks
                                       (assign_loop a0 pool' 0 avail st0)) <$> tasks g |} |}
              !! j = graph_tasks (assign_loop a0 pool' 0 avail st0) !! j).
  { intros j Hj. unfold tasks_of. simpl. subst ts.
    destruct (tasks g); [done |]. simpl in Hj. lia. }
  assert (Hlen : length (graph_tasks (assign_loop a0 pool' 0 avail st0)) = length ts).
  { apply Nat.le_antisymm.
    - destruct (decide (length (graph_tasks (assign_loop a0 pool' 0 avail st0))
                        ≤ length ts)) as [? | Hgt]; [done |].
      assert (Hsome : is_Some (graph_tasks (assign_loop a0 pool' 0 avail st0)
                                 !! length ts)) by (apply lookup_lt_is_Some; lia).
      destruct Hsome as [t' Ht'].
      pose proof (assign_loop_tasks_id a0 pool' avail 0 st0 (length ts)) as Hid.
      rewrite Ht' in Hid. simpl in Hid.
      by rewrite (lookup_ge_None_2 ts (length ts)) in Hid.
    - destruct (decide (length ts
                        ≤ length (graph_tasks (assign_loop a0 pool' 0 avail st0))))
        as [? | Hgt]; [done |].
      assert (Hsome : is_Some (ts !! length (graph_tasks
                                 (assign_loop a0 pool' 0 avail st0))))
        by (apply lookup_lt_is_Some; lia).
      destruct Hsome as [t Ht].
      pose proof (assign_loop_tasks_id a0 pool' avail 0 st0
                    (length (graph_tasks (assign_loop a0 pool' 0 avail st0)))) as Hid.
      simpl in Hid. rewrite Ht in Hid.
      by rewrite lookup_ge_None_2 in Hid. }
  split.
  { rewrite Hts. unfold tasks_of. simpl. subst ts.
    destruct (tasks g); [exact Hlen | done]. }
  split.
  { intros j t Hj. rewrite Hts in Hj.
    rewrite Hp. rewrite Hts' by (by eapply lookup_lt_Some). split.
    - intros Hsel.
      assert (Hin : (j, t) ∈ avail) by (by apply elem_of_sorted_available).
      destruct (assign_loop_tasks_taken a0 pool' avail 0 st0 j) as (w & Hw & Hjw).
      { apply list_elem_of_fmap. by exists (j, t). }
      exists w, (take w t). split; [done |]. split.
      { rewrite Hjw. simpl. by rewrite Hj. }
      split; [by repeat split |].
      simpl. apply assign_loop_assigned. right.
      apply list_elem_of_fmap. by exists (j, t).
    - intros Hnsel. rewrite assign_loop_tasks_other; [done |].
      intros ([j' t'] & -> & Hin)%list_elem_of_fmap. simpl in *.
      apply elem_of_sorted_available in Hin. destruct Hin as [Hj' Hsel].
      rewrite Hj in Hj'. injection Hj' as <-. done. }
  split.
  { intros k w Hk. simpl. rewrite assign_loop_assigned_other; [done |].
    intros ([j t] & -> & Hin)%list_elem_of_fmap. simpl in *.
    apply elem_of_sorted_available in Hin. destruct Hin as [_ [Hfree _]].
    by rewrite Hfree in Hk. }
  split.
  { intros k w Hk. simpl in Hk. rewrite Hp.
    by apply (assign_loop_assigned_new a0 pool' avail 0 st0). }
  done.
Qed.

(** The scenario: A is taken by "coder-1". *)
Lemma assign_tasks_effects_witness :
  length (tasks_of (assign_tasks abc).2) = length (tasks_of abc) ∧
  (∀ j t, tasks_of abc !! j = Some t →
     (selectable abc t →
        ∃ w t', w ∈ coder_agents abc ∧
                tasks_of (assign_tasks abc).2 !! j = Some t' ∧
                taken_by w t t' ∧
                is_Some (tasks_assigned (assign_tasks abc).2 !! t_id t)) ∧
     (¬ selectable abc t → tasks_of (assign_tasks abc).2 !! j = Some t)) ∧
  (∀ k w, tasks_assigned abc !! k = Some w →
          tasks_assigned (assign_tasks abc).2 !! k = Some w) ∧
  (∀ k w, tasks_assigned (assign_tasks abc).2 !! k = Some w →
          tasks_assigned abc !! k = Some w ∨ w ∈ coder_agents abc) ∧
  tasks_completed (assign_tasks abc).2 = tasks_completed abc ∧
  files_modified (assign_tasks abc).2 = files_modified abc ∧
  coder_agents (assign_tasks abc).2 = coder_agents abc ∧
  goal_graph_approved (assign_tasks abc).2 = goal_graph_approved abc.
Proof.
  apply (assign_tasks_effects abc abc_first (assign_tasks abc).2).
  vm_compute. reflexivity.
Defined.

(** X14.  No ready task is left out: the id of every selectable task of
    the graph is in the list of some worker of the pool. *)
Theorem assign_tasks_hands_out_all_ready s a s' j t :
  assign_tasks s = (Returned a, s') →
  tasks_of s !! j = Some t → selectable s t →
  ∃ w l, w ∈ coder_agents s ∧ a !! w = Some l ∧ t_id t ∈ l.
Proof.
  intros Has Hj Hsel.
  destruct (assign_tasks_shares _ _ _ Has) as (a0 & pool' & Hp & Hsh).
  assert (Hin : (j, t) ∈ sort_by (λ it : nat * task, sort_key it.2)
                         (available_tasks s (tasks_of s)))
    by (by apply elem_of_sorted_available).
  destruct (elem_of_share_head a0 pool' _ 0 _ Hin) as (w & Hw & Hshare).
  rewrite <- Hp in Hw. exists w. eexists. split; [done |].
  split; [| exact Hshare]. rewrite Hsh. by rewrite bool_decide_eq_true_2.
Qed.

Lemma assign_tasks_hands_out_all_ready_witness :
  ∃ w l, w ∈ coder_agents abc ∧ abc_first !! w = Some l ∧ Some "A" ∈ l.
Proof.
  apply (assign_tasks_hands_out_all_ready abc abc_first (assign_tasks abc).2
           0 (new_task "A" "Medium" [])).
  - vm_compute. reflexivity.
  - reflexivity.
  - split; [reflexivity |]. split; [discriminate |].
    intros d Hd. by apply not_elem_of_nil in Hd.
Defined.

(** *** Balance of the round-robin *)

Lemma share_snoc a0 pool' w l x : ∀ i,
  share a0 pool' w i (l ++ [x]) =
  share a0 pool' w i l
  ++ (if bool_decide (agent_at a0 pool' (i + length l) = w)
      then [t_id x.2] else []).
Proof.
  induction l as [|y l IH]; intros i; simpl.
  - by rewrite Nat.add_0_r, app_nil_r.
  - rewrite IH, <- app_assoc. by rewrite Nat.add_succ_r.
Qed.

Lemma agent_at_position a0 pool' p w m :
  NoDup (a0 :: pool') → (a0 :: pool') !! p = Some w →
  agent_at a0 pool' m = w ↔ m mod length (a0 :: pool') = p.
Proof.
  intros Hnd Hp. unfold agent_at.
  assert (Hlt : m mod length (a0 :: pool') < length (a0 :: pool'))
    by (by apply Nat.mod_upper_bound).
  split.
  - intros Heq.
    destruct (nth_lookup_or_length (a0 :: pool')
                (m mod length (a0 :: pool')) a0) as [Hl | ?]; [| lia].
    rewrite Heq in Hl.
    by apply (proj1 (NoDup_alt (a0 :: pool')) Hnd _ _ w).
  - intros ->. by apply nth_lookup_Some.
Qed.

Lemma succ_div_mod m n :
  0 < n →
  (S m / n = m / n + (if bool_decide (m mod n = n - 1) then 1 else 0)) ∧
  (S m mod n = if bool_decide (m mod n = n - 1) then 0 else S (m mod n)).
Proof.
  intros Hn.
  pose proof (Nat.div_mod_eq m n) as Hm.
  pose proof (Nat.mod_upper_bound m n ltac:(lia)) as Hr.
  case_bool_decide as Hlast.
  - assert (Hq : m / n + 1 = S m / n).
    { apply (Nat.div_unique (S m) n (m / n + 1) 0); [lia | nia]. }
    assert (Hr' : 0 = S m mod n).
    { apply (Nat.mod_unique (S m) n (m / n + 1) 0); [lia | nia]. }
    lia.
  - assert (Hq : m / n = S m / n).
    { apply (Nat.div_unique (S m) n (m / n) (S (m mod n))); [lia | nia]. }
    assert (Hr' : S (m mod n) = S m mod n).
    { apply (Nat.mod_unique (S m) n (m / n) (S (m mod n))); [lia | nia]. }
    lia.
Qed.

Lemma share_length a0 pool' p w l :
  NoDup (a0 :: pool') → (a0 :: pool') !! p = Some w →
  length (share a0 pool' w 0 l)
  = length l / length (a0 :: pool')
    + (if bool_decide (p < length l mod length (a0 :: pool')) then 1 else 0).
Proof.
  intros Hnd Hp.
  assert (Hn : 0 < length (a0 :: pool')) by (simpl; lia).
  assert (Hpn : p < length (a0 :: pool')) by (by eapply lookup_lt_Some).
  induction l as [|x l IH] using rev_ind.
  - change (length (share a0 pool' w 0 [])) with 0.
    change (length (@nil (nat * task))) with 0.
    rewrite Nat.Div0.div_0_l, Nat.Div0.mod_0_l.
    by rewrite bool_decide_eq_false_2 by lia.
  - rewrite share_snoc, !length_app, IH.
    change (length [x]) with 1. rewrite Nat.add_0_l, Nat.add_1_r.
    destruct (succ_div_mod (length l) (length (a0 :: pool')) Hn) as [-> ->].
    pose proof (Nat.mod_upper_bound (length l) (length (a0 :: pool')) ltac:(lia)) as Hr.
    pose proof (agent_at_position a0 pool' p w (length l) Hnd Hp) as Hat.
    set (n := length (a0 :: pool')) in *.
    set (r := length l mod n) in *.
    set (q := length l / n) in *.
    destruct (decide (r = p)) as [Hrp | Hrp].
    + rewrite (bool_decide_eq_true_2 _ (proj2 Hat Hrp)).
      change (length [t_id x.2]) with 1.
      repeat case_bool_decide; lia.
    + rewrite (bool_decide_eq_false_2 (agent_at a0 pool' (length l) = w))
        by (intros Hw; apply Hrp; exact (proj1 Hat Hw)).
      change (length (@nil (option string))) with 0.
      repeat case_bool_decide; lia.
Qed.

(** X15.  The round-robin is balanced.  With pairwise distinct worker ids,
    [n] workers and [m] ready tasks, the worker at position [p] of the pool
    gets [m / n] tasks, and one more when [p < m mod n]; so the lists of
    any two workers differ in length by at most one. *)
Theorem round_robin_balanced s a s' :
  assign_tasks s = (Returned a, s') →
  NoDup (coder_agents s) →
  (∀ p w, coder_agents s !! p = Some w →
     ∃ l, a !! w = Some l ∧
          length l = length (available_tasks s (tasks_of s)) / length (coder_agents s)
                     + (if bool_decide (p < length (available_tasks s (tasks_of s))
                                            mod length (coder_agents s))
                        then 1 else 0)) ∧
  (∀ w1 w2 l1 l2, a !! w1 = Some l1 → a !! w2 = Some l2 →
                  length l1 ≤ length l2 + 1).
Proof.
  intros Has Hnd.
  destruct (assign_tasks_shares _ _ _ Has) as (a0 & pool' & Hp & Hsh).
  rewrite Hp in Hnd.
  assert (Hclosed : ∀ p w, coder_agents s !! p = Some w →
     ∃ l, a !! w = Some l ∧
          length l = length (available_tasks s (tasks_of s)) / length (coder_agents s)
                     + (if bool_decide (p < length (available_tasks s (tasks_of s))
                                            mod length (coder_agents s))
                        then 1 else 0)).
  { intros p w Hw. eexists. split.
    - rewrite Hsh. rewrite bool_decide_eq_true_2; [done |].
      by eapply list_elem_of_lookup_2.
    - rewrite Hp in Hw |- *. rewrite (share_length a0 pool' p w _ Hnd Hw).
      by rewrite (Permutation_length (sort_by_perm _ _)). }
  split; [exact Hclosed |].
  intros w1 w2 l1 l2 H1 H2.
  assert (Hin : ∀ w l, a !! w = Some l → w ∈ coder_agents s).
  { intros w l. rewrite Hsh. by case_bool_decide. }
  destruct (list_elem_of_lookup_1 _ _ (Hin _ _ H1)) as [p1 Hp1].
  destruct (list_elem_of_lookup_1 _ _ (Hin _ _ H2)) as [p2 Hp2].
  destruct (Hclosed _ _ Hp1) as (l1' & Hl1 & Hlen1).
  destruct (Hclosed _ _ Hp2) as (l2' & Hl2 & Hlen2).
  rewrite H1 in Hl1. rewrite H2 in Hl2.
  injection Hl1 as <-. injection Hl2 as <-.
  rewrite Hlen1, Hlen2. repeat case_bool_decide; lia.
Qed.

(** The scenario: B and C, two workers, one each. *)
Lemma round_robin_balanced_witness :
  assign_tasks abc_after_A = (Returned abc_second, (assign_tasks abc_after_A).2) ∧
  NoDup (coder_agents abc_after_A) ∧
  (∀ w1 w2 l1 l2, abc_second !! w1 = Some l1 → abc_second !! w2 = Some l2 →
                  length l1 ≤ length l2 + 1).
Proof.
  assert (Has : assign_tasks abc_after_A
                = (Returned abc_second, (assign_tasks abc_after_A).2)).
  { vm_compute. reflexivity. }
  assert (Hnd : NoDup (coder_agents abc_after_A)).
  { apply (bool_decide_unpack (NoDup (coder_agents abc_after_A))).
    vm_compute. exact I. }
  split; [exact Has |]. split; [exact Hnd |].
  exact (proj2 (round_robin_balanced abc_after_A abc_second
                  (assign_tasks abc_after_A).2 Has Hnd)).
Defined.

(** *** Order of the ready list *)

Lemma rank_of_priority_rank t :
  priority_rank (default "Medium" (t_priority t)) = rank_of t.
Proof.
  unfold rank_of, priority_rank. destruct (t_priority t) as [p|]; simpl; [| done].
  repeat case_bool_decide; repeat case_decide; subst; done.
Qed.

Lemma deps_of_length t :
  length (default [] (t_dependencies t)) = deps_of t.
Proof. unfold deps_of. by destruct (t_dependencies t). Qed.

Lemma key_le_before t1 t2 :
  key_le (sort_key t1) (sort_key t2) = true ↔ before_in_order t1 t2.
Proof.
  unfold key_le, sort_key, before_in_order. simpl.
  rewrite !rank_of_priority_rank, !deps_of_length.
  rewrite orb_true_iff, andb_true_iff, Z.ltb_lt, Z.eqb_eq, Z.leb_le. lia.
Qed.

Lemma Sorted_snd_before (l : list (nat * task)) :
  Sorted (λ a b, key_le (sort_key a.2) (sort_key b.2) = true) l →
  Sorted before_in_order l.*2.
Proof.
  induction 1 as [|x l Hs IH Hhd]; simpl; [constructor |].
  constructor; [exact IH |].
  destruct Hhd as [|y l' Hxy]; simpl; constructor. by apply key_le_before.
Qed.

Lemma before_in_order_trans t1 t2 t3 :
  before_in_order t1 t2 → before_in_order t2 t3 → before_in_order t1 t3.
Proof. unfold before_in_order. lia. Qed.

Lemma StronglySorted_lookup {A} (R : A → A → Prop) l :
  StronglySorted R l →
  ∀ i j x y, i < j → l !! i = Some x → l !! j = Some y → R x y.
Proof.
  induction 1 as [|a l Hs IH Hall]; intros i j x y Hlt Hi Hj; [done |].
  destruct j as [|j]; [lia |]. destruct i as [|i]; simpl in *.
  - injection Hi as <-. rewrite Forall_forall in Hall.
    apply Hall. by eapply list_elem_of_lookup_2.
  - eapply (IH i j); [lia | done | done].
Qed.

Lemma agent_at_lookup a0 pool' i :
  (a0 :: pool') !! (i mod length (a0 :: pool')) = Some (agent_at a0 pool' i).
Proof.
  unfold agent_at.
  destruct (nth_lookup_or_length (a0 :: pool')
              (i mod length (a0 :: pool')) a0) as [Hl | Hge]; [done |].
  pose proof (Nat.mod_upper_bound i (length (a0 :: pool'))) as Hlt.
  simpl in *. lia.
Qed.

(** The share of a worker is what the round-robin of the specification
    deals to it. *)
Lemma share_dealt a0 pool' w l : ∀ i,
  share a0 pool' w i l
  = (λ it : nat * task, t_id it.2) <$>
      filter (λ it : nat * task,
                (a0 :: pool') !! (it.1 mod length (a0 :: pool')) = Some w)
             (imap (λ k t, (i + k, t)) l.*2).
Proof.
  induction l as [|it rest IH]; intros i; [done |].
  cbn [share]. rewrite (IH (S i)).
  rewrite fmap_cons, imap_cons, filter_cons. cbn [fst snd].
  rewrite Nat.add_0_r, agent_at_lookup.
  rewrite (imap_ext (λ k t, (S i + k, t)) ((λ k t, (i + k, t)) ∘ S))
    by (intros k t _; simpl; f_equal; lia).
  case_bool_decide as Hw; case_decide as Hw'; try done.
  - destruct Hw'. by rewrite Hw.
  - destruct Hw. by injection Hw' as <-.
Qed.

(** X16.  [assign_tasks] deals the ready tasks out in ascending order of
    the key of line 404.  There is an order of the ready tasks in which an
    earlier task has, compared with a later one, the smaller priority rank
    ("Low" 1, "Medium" 2, "High" 3, anything else 0, no priority 2) or, at
    equal rank, at least as many dependencies; and every worker [w] gets
    the ids of the tasks at the positions [i] of that order with
    [pool[i mod len(pool)] = w], in that order.  So a "High" task is
    handed out after every "Medium" and "Low" task. *)
Theorem ready_list_ascending s a s' :
  assign_tasks s = (Returned a, s') →
  ∃ order : list task,
    order ≡ₚ (available_tasks s (tasks_of s)).*2 ∧
    (∀ i j ti tj, i < j → order !! i = Some ti → order !! j = Some tj →
                  before_in_order ti tj) ∧
    (∀ w, w ∈ coder_agents s →
          a !! w = Some (dealt_to (coder_agents s) w order)).
Proof.
  intros Has.
  destruct (assign_tasks_shares _ _ _ Has) as (a0 & pool' & Hp & Hsh).
  set (sorted := sort_by (λ it : nat * task, sort_key it.2)
                   (available_tasks s (tasks_of s))) in *.
  exists sorted.*2. split.
  { apply fmap_Permutation. apply sort_by_perm. }
  split.
  { apply StronglySorted_lookup. apply Sorted_StronglySorted.
    - intros t1 t2 t3. apply before_in_order_trans.
    - apply Sorted_snd_before.
      apply (sort_by_sorted (λ it : nat * task, sort_key it.2)). }
  intros w Hw. rewrite Hsh, bool_decide_eq_true_2 by done.
  f_equal. rewrite share_dealt. unfold dealt_to. by rewrite Hp.
Qed.

(** A High, a Medium and a Low task, one worker: the order is Low, Medium,
    High. *)
Lemma ready_list_ascending_witness :
  ∃ order : list task,
    order ≡ₚ (available_tasks three_priorities (tasks_of three_priorities)).*2 ∧
    (∀ i j ti tj, i < j → order !! i = Some ti → order !! j = Some tj →
                  before_in_order ti tj) ∧
    (∀ w, w ∈ coder_agents three_priorities →
          ({[ "coder-1" := [Some "L"; Some "M"; Some "H"] ]}
             : gmap string (list (option string))) !! w
          = Some (dealt_to (coder_agents three_priorities) w order)).
Proof.
  apply (ready_list_ascending three_priorities
           {[ "coder-1" := [Some "L"; Some "M"; Some "H"] ]}
           (assign_tasks three_priorities).2).
  vm_compute. reflexivity.
Defined.

(** *** The task state machine *)

Lemma find_task_alter_found task_id status ts i t :
  find_task task_id ts = Some (i, t) →
  find_task task_id (alter (set_status status) i ts)
  = Some (i, set_status status t).
Proof.
  unfold find_task. intros (Hi & HP & Hmin)%list_find_Some.
  apply list_find_Some. split.
  - by rewrite list_lookup_alter_eq, Hi.
  - split; [exact HP |]. intros j y Hj Hlt.
    rewrite list_lookup_alter_ne in Hj by lia. by eapply Hmin.
Qed.

Lemma tasks_of_record_status s task_id i status stage modified :
  tasks_of (record_status s task_id (Some i) status stage modified)
  = alter (set_status status) i (tasks_of s).
Proof.
  unfold tasks_of, record_status. simpl.
  destruct (goal_graph s) as [[[ts|]]|]; simpl; try done.
Qed.

(** Recording a status at the position where the task was found keeps the
    operations workable and makes both records say that status. *)
Lemma record_status_found s task_id i t status stage modified :
  workable s task_id →
  find_task task_id (tasks_of s) = Some (i, t) →
  workable (record_status s task_id (Some i) status stage modified) task_id ∧
  status_is (record_status s task_id (Some i) status stage modified)
    task_id status.
Proof.
  intros (Hq & Hw & [g Hg] & _) Hf.
  assert (Hf' : find_task task_id
                  (tasks_of (record_status s task_id (Some i) status stage modified))
                = Some (i, set_status status t)).
  { rewrite tasks_of_record_status. by apply find_task_alter_found. }
  split.
  - split; [exact Hq |]. split; [exact Hw |].
    split; [| by rewrite Hf'].
    unfold record_status. simpl. rewrite Hg. by eauto.
  - split; [apply lookup_insert_eq |].
    unfold graph_status. by rewrite Hf'.
Qed.

(** X17.  The transitions of a task, for a state in which the operations
    find what they look up (a reviewer, the assigned worker in the pool,
    the task in the graph) and for agents that return their reports.
    [implement_task] returns and sets "Needs Review".  On "Needs Review",
    [review_task] and [verify_fixes] return the verdict and set "Completed"
    when it is positive and "Needs Fixes" otherwise.  On "Needs Fixes",
    [fix_task] returns, sets "Needs Review" and adds the modified files.
    Each time the status is written both to [tasks_completed] and to the
    task of the graph, and the state stays workable, so the cycle of fixes
    and verifications can go on.  When the agent raises instead, its
    exception comes out of the operation and nothing but the stage has
    changed: the task keeps its status. *)
Theorem task_transitions s task_id :
  workable s task_id →
  (∀ m, (implement_task s task_id (Returned m)).1 = Returned () ∧
        workable (implement_task s task_id (Returned m)).2 task_id ∧
        status_is (implement_task s task_id (Returned m)).2 task_id
          "Needs Review") ∧
  (tasks_completed s !! task_id = Some "Needs Review" →
   ∀ b, (review_task s task_id (Returned b)).1 = Returned b ∧
        workable (review_task s task_id (Returned b)).2 task_id ∧
        status_is (review_task s task_id (Returned b)).2 task_id
          (if b then "Completed" else "Needs Fixes") ∧
        (verify_fixes s task_id (Returned b)).1 = Returned b ∧
        workable (verify_fixes s task_id (Returned b)).2 task_id ∧
        status_is (verify_fixes s task_id (Returned b)).2 task_id
          (if b then "Completed" else "Needs Fixes")) ∧
  (tasks_completed s !! task_id = Some "Needs Fixes" →
   ∀ m, (fix_task s task_id (Returned m)).1 = Returned () ∧
        workable (fix_task s task_id (Returned m)).2 task_id ∧
        status_is (fix_task s task_id (Returned m)).2 task_id "Needs Review" ∧
        files_modified (fix_task s task_id (Returned m)).2
          = list_to_set m ∪ files_modified s) ∧
  (∀ e,
     (implement_task s task_id (Raised e)).1 = Raised e ∧
     only_stage_differs s (implement_task s task_id (Raised e)).2 ∧
     (tasks_completed s !! task_id = Some "Needs Review" →
        (review_task s task_id (Raised e)).1 = Raised e ∧
        only_stage_differs s (review_task s task_id (Raised e)).2 ∧
        (verify_fixes s task_id (Raised e)).1 = Raised e ∧
        only_stage_differs s (verify_fixes s task_id (Raised e)).2) ∧
     (tasks_completed s !! task_id = Some "Needs Fixes" →
        (fix_task s task_id (Raised e)).1 = Raised e ∧
        only_stage_differs s (fix_task s task_id (Raised e)).2)).
Proof.
  intros Hwork.
  pose proof Hwork as ([q Hq] & (agent_id & Hassigned & Hpool) & [g Hg] & [[i t] Hf]).
  assert (Hf' : find_task task_id (default [] (tasks g)) = Some (i, t)).
  { unfold tasks_of in Hf. by rewrite Hg in Hf. }
  assert (Hrec : ∀ status stage stage' modified,
    workable (record_status (set_stage stage' s) task_id (Some i) status stage
                modified) task_id ∧
    status_is (record_status (set_stage stage' s) task_id (Some i) status stage
                 modified) task_id status).
  { intros status stage stage' modified.
    by apply (record_status_found (set_stage stage' s) task_id i t). }
  split.
  { intros m. unfold implement_task.
    rewrite Hassigned, (bool_decide_eq_true_2 _ Hpool), Hg, Hf'. cbv zeta.
    split; [done |]. apply Hrec. }
  split.
  { intros Hst b. unfold review_task, verify_fixes.
    rewrite Hq, Hst, Hg, Hf'.
    rewrite (bool_decide_eq_false_2 (Some "Needs Review" ≠ Some "Needs Review"))
      by (intros H; by apply H).
    cbv zeta. cbn [fst snd].
    destruct b; repeat split; try done; apply Hrec. }
  split.
  { intros Hst m. unfold fix_task.
    rewrite Hst, Hassigned, (bool_decide_eq_true_2 _ Hpool).
    rewrite (bool_decide_eq_false_2 (Some "Needs Fixes" ≠ Some "Needs Fixes"))
      by (intros H; by apply H).
    cbv zeta.
    change (goal_graph (set_stage ("fixing_task_" +:+ task_id) s))
      with (goal_graph s).
    rewrite Hg, Hf'. cbn [fst snd fmap option_fmap option_map].
    split; [done |].
    destruct (Hrec "Needs Review" ("task_" +:+ task_id +:+ "_fixes_implemented")
                ("fixing_task_" +:+ task_id) m) as [? ?].
    done. }
  intros e. unfold implement_task, review_task, verify_fixes, fix_task.
  rewrite Hq, Hassigned, (bool_decide_eq_true_2 _ Hpool), Hg, Hf'. cbv zeta.
  split; [done |]. split; [by repeat split |]. split.
  - intros Hst. rewrite Hst.
    rewrite (bool_decide_eq_false_2 (Some "Needs Review" ≠ Some "Needs Review"))
      by (intros H; by apply H).
    by repeat split.
  - intros Hst. rewrite Hst.
    rewrite (bool_decide_eq_false_2 (Some "Needs Fixes" ≠ Some "Needs Fixes"))
      by (intros H; by apply H).
    by repeat split.
Qed.

Lemma first_pass_workable : workable first_pass "A".
Proof.
  split; [by eexists |].
  split; [exists "coder-1"; split; [vm_compute; reflexivity | constructor] |].
  split; [by eexists | by eexists].
Qed.

(** Task A after its first implementation pass: rejected by the review,
    fixed, verified. *)
Lemma task_transitions_witness :
  status_is
    (verify_fixes
       (fix_task (review_task first_pass "A" (Returned false)).2
                 "A" (Returned ["a.py"])).2
       "A" (Returned true)).2
    "A" "Completed".
Proof.
  destruct (proj1 (proj2 (task_transitions first_pass "A" first_pass_workable))
              ltac:(vm_compute; reflexivity) false)
    as (_ & Hw1 & [Hs1 _] & _).
  destruct (proj1 (proj2 (proj2 (task_transitions _ "A" Hw1))) Hs1 ["a.py"])
    as (_ & Hw2 & [Hs2 _] & _).
  destruct (proj1 (proj2 (task_transitions _ "A" Hw2)) Hs2 true)
    as (_ & _ & _ & _ & _ & Hfinal).
  exact Hfinal.
Defined.

(** X18.  The guards of the transitions.  Unless the recorded status is
    "Needs Review", [review_task] and [verify_fixes] raise [ValueError] and
    leave the state as it is; unless it is "Needs Fixes", so does
    [fix_task]; the agent is not called, whatever its call would give.
    Hence a task recorded as "Completed" is moved by none of the three,
    and [fix_task] right after the first implementation pass raises. *)
Theorem transitions_guarded s task_id :
  (tasks_completed s !! task_id ≠ Some "Needs Review" →
   ∀ r, is_ValueError (review_task s task_id r).1 ∧
        (review_task s task_id r).2 = s ∧
        is_ValueError (verify_fixes s task_id r).1 ∧
        (verify_fixes s task_id r).2 = s) ∧
  (tasks_completed s !! task_id ≠ Some "Needs Fixes" →
   ∀ r, is_ValueError (fix_task s task_id r).1 ∧ (fix_task s task_id r).2 = s) ∧
  (∀ s0 r0 r, implement_task s0 task_id r0 = (Returned (), s) →
              is_ValueError (fix_task s task_id r).1 ∧
              (fix_task s task_id r).2 = s).
Proof.
  assert (Hfix : tasks_completed s !! task_id ≠ Some "Needs Fixes" →
            ∀ r, is_ValueError (fix_task s task_id r).1 ∧
                 (fix_task s task_id r).2 = s).
  { intros Hst r. unfold fix_task. by rewrite bool_decide_eq_true_2. }
  split.
  { intros Hst r. unfold review_task, verify_fixes.
    destruct (qualitator_agent s); [| done].
    by rewrite bool_decide_eq_true_2. }
  split; [exact Hfix |].
  intros s0 r0 r Himpl. apply Hfix.
  destruct (implement_task_returned _ _ _ _ Himpl) as (_ & -> & _). done.
Qed.

(** The scenario of the specification: [fix_task] on the task that has
    only been implemented. *)
Lemma transitions_guarded_witness :
  is_ValueError (fix_task first_pass "A" (Returned ["a.py"])).1 ∧
  (fix_task first_pass "A" (Returned ["a.py"])).2 = first_pass.
Proof.
  apply (proj2 (proj2 (transitions_guarded first_pass "A"))
           (assign_tasks (manager_of ["coder-1"] [new_task "A" "High" []])).2
           (Returned ["a.py"]) (Returned ["a.py"])).
  vm_compute. reflexivity.
Defined.

End SchedulerUse.

(** * Properties of the pipeline *)

Section PipelineUse.
Import Tasker AgentManager Pipeline SchedulerSpec PipelineSpec.

Lemma same_but_stage_at stage p : same_but_stage p (at_stage stage p).
Proof. by repeat split. Qed.

(** X19.  Approval is given by a positive verdict only and is never taken
    back.  [generate_prd], [refine_prd], [create_goal_graph] and
    [update_goal_graph] leave the approval flag and the records of
    assigned and completed tasks as they are, also when they put a new
    graph in place and also when their agent raises;
    [validate_goal_graph] and [approve_goal_graph] set the flag when their
    agent returns a positive verdict and leave it otherwise.  When one of
    the six raises, nothing but the stage has changed, and not even the
    stage unless it is the agent that raised: then the exception of the
    agent comes out and the stage is the one written before the call.
    Without approval [assign_tasks] raises and changes nothing. *)
Theorem approval_by_verdict_only p :
  (∀ r m, keeps_records p (generate_prd p r m).2) ∧
  (∀ r m, keeps_records p (refine_prd p r m).2) ∧
  (∀ r, keeps_records p (create_goal_graph p r).2 ∧
        ∀ g, (create_goal_graph p r).1 = Returned g →
             goal_graph (core (create_goal_graph p r).2) = Some g) ∧
  (∀ r, keeps_records p (update_goal_graph p r).2 ∧
        ∀ g, (update_goal_graph p r).1 = Returned g →
             goal_graph (core (update_goal_graph p r).2) = Some g) ∧
  (∀ r, goal_graph_approved (core (validate_goal_graph p r).2)
        = goal_graph_approved (core p) || positive (validate_goal_graph p r).1) ∧
  (∀ r, goal_graph_approved (core (approve_goal_graph p r).2)
        = goal_graph_approved (core p) || positive (approve_goal_graph p r).1) ∧
  (∀ rt m rg rb,
     (raises (generate_prd p rt m).1 →
        same_but_stage p (generate_prd p rt m).2 ∧
        (¬ raises rt → (generate_prd p rt m).2 = p)) ∧
     (raises (refine_prd p rt m).1 →
        same_but_stage p (refine_prd p rt m).2 ∧
        (¬ raises rt → (refine_prd p rt m).2 = p)) ∧
     (raises (create_goal_graph p rg).1 →
        same_but_stage p (create_goal_graph p rg).2 ∧
        (¬ raises rg → (create_goal_graph p rg).2 = p)) ∧
     (raises (update_goal_graph p rg).1 →
        same_but_stage p (update_goal_graph p rg).2 ∧
        (¬ raises rg → (update_goal_graph p rg).2 = p)) ∧
     (raises (validate_goal_graph p rb).1 →
        same_but_stage p (validate_goal_graph p rb).2 ∧
        (¬ raises rb → (validate_goal_graph p rb).2 = p)) ∧
     (raises (approve_goal_graph p rb).1 →
        same_but_stage p (approve_goal_graph p rb).2 ∧
        (¬ raises rb → (approve_goal_graph p rb).2 = p))) ∧
  (∀ e m,
     (is_Some (requirementer_agent p) →
        (generate_prd p (Raised e) m).1 = Raised e ∧
        current_stage (core (generate_prd p (Raised e) m).2)
          = "generating_prd") ∧
     (is_Some (requirementer_agent p) → is_Some (prd p) →
        (refine_prd p (Raised e) m).1 = Raised e ∧
        current_stage (core (refine_prd p (Raised e) m).2)
          = "refining_prd") ∧
     (is_Some (tasker_agent p) → is_Some (prd p) →
        (create_goal_graph p (Raised e)).1 = Raised e ∧
        current_stage (core (create_goal_graph p (Raised e)).2)
          = "creating_goal_graph") ∧
     (is_Some (tasker_agent p) → is_Some (goal_graph (core p)) →
        (update_goal_graph p (Raised e)).1 = Raised e ∧
        current_stage (core (update_goal_graph p (Raised e)).2)
          = "updating_goal_graph") ∧
     (is_Some (goaler_agent p) → is_Some (prd p) →
      is_Some (goal_graph (core p)) →
        (validate_goal_graph p (Raised e)).1 = Raised e ∧
        current_stage (core (validate_goal_graph p (Raised e)).2)
          = "validating_goal_graph") ∧
     (is_Some (goaler_agent p) → is_Some (goal_graph (core p)) →
        (approve_goal_graph p (Raised e)).1 = Raised e ∧
        current_stage (core (approve_goal_graph p (Raised e)).2)
          = "approving_goal_graph")) ∧
  (goal_graph_approved (core p) = false →
   raises (assign_tasks (core p)).1 ∧ (assign_tasks (core p)).2 = core p).
Proof.
  assert (Hsame : same_but_stage p p) by (by repeat split).
  split.
  { intros r m. unfold generate_prd.
    by destruct (requirementer_agent p), r. }
  split.
  { intros r m. unfold refine_prd.
    by destruct (requirementer_agent p), (prd p), r. }
  split.
  { intros r. unfold create_goal_graph.
    destruct (tasker_agent p), (prd p), r; simpl; split; try done;
      by intros ? [= <-]. }
  split.
  { intros r. unfold update_goal_graph.
    destruct (tasker_agent p), (goal_graph (core p)), r; simpl; split; try done;
      by intros ? [= <-]. }
  split.
  { intros r. unfold validate_goal_graph.
    destruct (goaler_agent p), (prd p), (goal_graph (core p)), r as [[]|];
      simpl; by rewrite ?orb_true_r, ?orb_false_r. }
  split.
  { intros r. unfold approve_goal_graph.
    destruct (goaler_agent p), (goal_graph (core p)), r as [[]|];
      simpl; by rewrite ?orb_true_r, ?orb_false_r. }
  split.
  { intros rt m rg rb.
    unfold generate_prd, refine_prd, create_goal_graph, update_goal_graph,
      validate_goal_graph, approve_goal_graph.
    destruct (requirementer_agent p), (tasker_agent p), (goaler_agent p),
      (prd p), (goal_graph (core p)), rt, rg, rb; cbv zeta;
      repeat split; try done;
      try (intros []; done); try (by intros _ []). }
  split.
  { intros e m.
    unfold generate_prd, refine_prd, create_goal_graph, update_goal_graph,
      validate_goal_graph, approve_goal_graph.
    repeat split; intros; repeat match goal with
                                 | H : is_Some _ |- _ => destruct H as [? ->]
                                 end; done. }
  intros Hno. unfold assign_tasks.
  destruct (coder_agents (core p)); [done |].
  destruct (goal_graph (core p)); [| done]. by rewrite Hno.
Qed.

(** Replacing the approved graph of the scenario keeps the approval. *)
Lemma approval_by_verdict_only_witness :
  goal_graph_approved
    (core (update_goal_graph running (Returned bare_graph_for_update)).2) = true ∧
  goal_graph (core (update_goal_graph running (Returned bare_graph_for_update)).2)
  = Some bare_graph_for_update.
Proof.
  destruct (proj1 (proj2 (proj2 (proj2 (approval_by_verdict_only running))))
              (Returned bare_graph_for_update)) as [[Hkept _] Hgraph].
  split; [exact Hkept |].
  apply Hgraph. reflexivity.
Defined.

Lemma latest_md_not_snapshot x : "latest.md" ≠ "prd_" +:+ x.
Proof. intros H. rewrite s_app_cons in H. discriminate H. Qed.

Lemma save_prd_exists text ts files :
  _save_prd text (Some ts) files !! "latest.md" = Some text ∧
  _save_prd text (Some ts) files !! ("prd_" +:+ pretty ts +:+ ".md") = Some text.
Proof.
  unfold _save_prd. rewrite (bool_decide_eq_true_2 (is_Some (Some ts))) by eauto.
  change (default 0%Z (Some ts)) with ts.
  split; [apply lookup_insert_eq |].
  rewrite lookup_insert_ne by apply latest_md_not_snapshot.
  apply lookup_insert_eq.
Qed.

(** *** Reading a text file back *)

Lemma universal_newlines_other c s :
  c ≠ CR →
  universal_newlines (String c s) = String c (universal_newlines s).
Proof. intros Hc. simpl. by rewrite bool_decide_eq_false_2. Qed.

Lemma universal_newlines_no_CR s :
  has_CR s = false → universal_newlines s = s.
Proof.
  unfold has_CR. induction s as [|c s IH]; [done |].
  cbn [StoreSpec.has_char]. rewrite orb_false_iff.
  intros [Hc Hs]. apply bool_decide_eq_false in Hc.
  rewrite universal_newlines_other by done. by rewrite IH.
Qed.

Lemma universal_newlines_CR_LF s :
  universal_newlines (String CR (String LF s)) = String LF (universal_newlines s).
Proof. done. Qed.

Lemma universal_newlines_CR_other c s :
  c ≠ LF →
  universal_newlines (String CR (String c s))
  = String LF (universal_newlines (String c s)).
Proof.
  intros Hc. simpl. by rewrite (bool_decide_eq_false_2 (c = LF)) by done.
Qed.

Lemma universal_newlines_removes_CR n : ∀ s,
  String.length s ≤ n → has_CR (universal_newlines s) = false.
Proof.
  assert (HLF : bool_decide (LF = CR) = false) by done.
  unfold has_CR. induction n as [|n IH]; intros [|c s] Hlen;
    try done; [simpl in Hlen; lia |].
  simpl in Hlen. destruct (decide (c = CR)) as [-> | Hc].
  - destruct s as [|c' s']; [done |].
    destruct (decide (c' = LF)) as [-> | Hc'].
    + rewrite universal_newlines_CR_LF.
      cbn [StoreSpec.has_char]. rewrite HLF. cbn [orb].
      apply IH. simpl in Hlen. lia.
    + rewrite universal_newlines_CR_other by done.
      cbn [StoreSpec.has_char]. rewrite HLF. cbn [orb].
      apply IH. lia.
  - rewrite universal_newlines_other by done.
    cbn [StoreSpec.has_char]. rewrite (bool_decide_eq_false_2 _ Hc). cbn [orb].
    apply IH. lia.
Qed.

Lemma replace_CRLF_here s :
  replace_from (String CR (String LF "")) (String LF "") 0
    (String CR (String LF s))
  = String LF (replace_from (String CR (String LF "")) (String LF "") 0 s).
Proof.
  rewrite replace_from_cons.
  assert (Hp : String.prefix (String CR (String LF "")) (String CR (String LF s))
               = true).
  { cbn [String.prefix].
    destruct (ascii_dec CR CR) as [_ | ?]; [| done].
    destruct (ascii_dec LF LF) as [_ | ?]; [| done]. by destruct s. }
  rewrite Hp, s_app_cons, s_app_nil. by rewrite replace_from_cons.
Qed.

Lemma replace_CRLF_lone s :
  (∀ s', s ≠ String LF s') →
  replace_from (String CR (String LF "")) (String LF "") 0 (String CR s)
  = String CR (replace_from (String CR (String LF "")) (String LF "") 0 s).
Proof.
  intros Hs. rewrite replace_from_cons.
  assert (Hp : String.prefix (String CR (String LF "")) (String CR s) = false).
  { cbn [String.prefix].
    destruct (ascii_dec CR CR) as [_ | ?]; [| done].
    destruct s as [|c s']; [done |]. cbn [String.prefix].
    destruct (ascii_dec LF c) as [<- | ?]; [| done].
    by destruct (Hs s'). }
  by rewrite Hp.
Qed.

Lemma replace_CRLF_other c s :
  c ≠ CR →
  replace_from (String CR (String LF "")) (String LF "") 0 (String c s)
  = String c (replace_from (String CR (String LF "")) (String LF "") 0 s).
Proof.
  intros Hc. rewrite replace_from_cons.
  assert (Hp : String.prefix (String CR (String LF "")) (String c s) = false).
  { cbn [String.prefix]. destruct (ascii_dec CR c) as [<- | ?]; done. }
  by rewrite Hp.
Qed.

Lemma replace_CR_step c s :
  replace_from (String CR "") (String LF "") 0 (String c s)
  = String (if bool_decide (c = CR) then LF else c)
           (replace_from (String CR "") (String LF "") 0 s).
Proof.
  rewrite replace_from_cons, prefix_one.
  change (String.length (String CR "") - 1) with 0.
  case_bool_decide as H1; case_bool_decide as H2; try congruence.
  by rewrite s_app_cons, s_app_nil.
Qed.

(** Universal newlines are the two replacements, one after the other. *)
Lemma universal_newlines_replace n : ∀ s,
  String.length s ≤ n → universal_newlines s = normalized_newlines s.
Proof.
  assert (HLF : bool_decide (LF = CR) = false) by done.
  unfold normalized_newlines, replace.
  induction n as [|n IH]; intros [|c s] Hlen;
    try done; [simpl in Hlen; lia |].
  simpl in Hlen. destruct (decide (c = CR)) as [-> | Hc].
  - destruct s as [|c' s']; [done |].
    destruct (decide (c' = LF)) as [-> | Hc'].
    + rewrite universal_newlines_CR_LF, replace_CRLF_here, replace_CR_step.
      rewrite HLF. f_equal. apply IH. simpl in Hlen. lia.
    + rewrite universal_newlines_CR_other by done.
      rewrite replace_CRLF_lone by (intros s'' [= ? _]; done).
      rewrite replace_CR_step, (bool_decide_eq_true_2 (CR = CR)) by done.
      f_equal. apply IH. lia.
  - rewrite universal_newlines_other by done.
    rewrite replace_CRLF_other by done.
    rewrite replace_CR_step, (bool_decide_eq_false_2 _ Hc).
    f_equal. apply IH. lia.
Qed.

Section Restart.

Variable py_hash : string → Z.
Variable FILE_LOCK_TIMEOUT : Z.

(** X20.  What a restart finds.  After [generate_prd] or [refine_prd] has
    returned a PRD with the PRD directory in place, the PRD is in
    "latest.md" and in the timestamped file, and a new [AgentManager]
    started on these files has [prd_created] set and as its PRD the text
    read back in text mode: the PRD with every "\r\n" and every other
    "\r" made "\n", so the PRD itself when it contains no carriage
    return.  With the PRD directory missing
    nothing is saved, although the PRD is returned.  Started on the files
    in which the Tasker has saved a graph, in an existing directory and
    with both locks obtained, the new manager has that graph.  It has no
    approval, no assignment and no agent: [assign_tasks] raises on it. *)
Theorem restart_finds_saved_work p text ts self g gts e1 e2 w :
  let restarted prd_files graph_files :=
    init prd_files (goal_graph_dir self) graph_files in
  (∀ p', generate_prd p (Returned text) (Some ts) = (Returned text, p') ∨
         refine_prd p (Returned text) (Some ts) = (Returned text, p') →
     prd p' = Some text ∧
     prd_dir p' !! "latest.md" = Some text ∧
     prd_dir p' !! ("prd_" +:+ pretty ts +:+ ".md") = Some text ∧
     ∀ graph_files,
       prd_created (restarted (prd_dir p') graph_files) = true ∧
       prd (restarted (prd_dir p') graph_files)
         = Some (normalized_newlines text) ∧
       has_CR (normalized_newlines text) = false ∧
       (has_CR text = false →
          prd (restarted (prd_dir p') graph_files) = Some text)) ∧
  (∀ p', generate_prd p (Returned text) None = (Returned text, p') ∨
         refine_prd p (Returned text) None = (Returned text, p') →
     prd p' = Some text ∧ prd_dir p' = prd_dir p) ∧
  (StoreSpec.obtainable
     (StoreSpec.lock_for py_hash FILE_LOCK_TIMEOUT self (snapshot_path self gts))
     true (on_acquire e1) (locks w) →
   StoreSpec.obtainable
     (StoreSpec.lock_for py_hash FILE_LOCK_TIMEOUT self (path_of self "latest.json"))
     true (on_acquire e2) (locks w) →
   ∀ prd_files,
     goal_graph (core (restarted prd_files
        (files (Tasker._save_goal_graph py_hash FILE_LOCK_TIMEOUT self g
                  (Some gts) e1 e2 w).2))) = Some g ∧
     goal_graph_created (restarted prd_files
        (files (Tasker._save_goal_graph py_hash FILE_LOCK_TIMEOUT self g
                  (Some gts) e1 e2 w).2)) = true) ∧
  (∀ prd_files graph_files,
     goal_graph_approved (core (restarted prd_files graph_files)) = false ∧
     tasks_assigned (core (restarted prd_files graph_files)) = ∅ ∧
     tasks_completed (core (restarted prd_files graph_files)) = ∅ ∧
     coder_agents (core (restarted prd_files graph_files)) = [] ∧
     raises (assign_tasks (core (restarted prd_files graph_files))).1).
Proof.
  intros restarted. subst restarted. cbv beta.
  assert (Hfields : ∀ m p',
    generate_prd p (Returned text) m = (Returned text, p') ∨
    refine_prd p (Returned text) m = (Returned text, p') →
    prd p' = Some text ∧ prd_dir p' = _save_prd text m (prd_dir p)).
  { intros m p' [H | H].
    - unfold generate_prd in H. destruct (requirementer_agent p); [| done].
      by injection H as <-.
    - unfold refine_prd in H.
      destruct (requirementer_agent p); [| done].
      destruct (prd p); [| done]. by injection H as <-. }
  split.
  { intros p' Hp'. destruct (Hfields _ _ Hp') as [Hprd Hdir].
    destruct (save_prd_exists text ts (prd_dir p)) as [Hlatest Hsnap].
    rewrite Hdir. split; [done |]. split; [done |]. split; [done |].
    intros graph_files. unfold init, _load_latest_prd. simpl.
    rewrite Hlatest. simpl.
    split; [done |].
    rewrite <- (universal_newlines_replace (String.length text)) by done.
    split; [done |]. split.
    - by apply (universal_newlines_removes_CR (String.length text)).
    - intros Hno. by rewrite universal_newlines_no_CR. }
  split.
  { intros p' Hp'. destruct (Hfields _ _ Hp') as [Hprd Hdir].
    by rewrite Hdir. }
  split.
  - intros H1 H2 prd_files. unfold init. simpl.
    destruct (save_goal_graph_granted py_hash FILE_LOCK_TIMEOUT self g
                gts e1 e2 w H1 H2) as (Hfiles & _).
    unfold _load_latest_goal_graph. rewrite Hfiles.
    unfold path_of. rewrite lookup_insert_eq.
    split; [done |]. by rewrite bool_decide_eq_true_2 by eauto.
  - intros prd_files graph_files. by repeat split.
Qed.

End Restart.

(** The scenario: the PRD is generated, and the manager is started
    again. *)
Lemma restart_finds_saved_work_witness :
  prd (generate_prd running (Returned "A PRD.") (Some 1700000000%Z)).2
    = Some "A PRD." ∧
  prd_dir (generate_prd running (Returned "A PRD.") (Some 1700000000%Z)).2
    !! "latest.md" = Some "A PRD." ∧
  prd_dir (generate_prd running (Returned "A PRD.") (Some 1700000000%Z)).2
    !! ("prd_" +:+ pretty 1700000000%Z +:+ ".md") = Some "A PRD." ∧
  ∀ graph_files,
    prd_created
      (init (prd_dir (generate_prd running (Returned "A PRD.")
                        (Some 1700000000%Z)).2)
         (goal_graph_dir StoreSpec.tasker) graph_files) = true ∧
    prd (init (prd_dir (generate_prd running (Returned "A PRD.")
                          (Some 1700000000%Z)).2)
           (goal_graph_dir StoreSpec.tasker) graph_files)
      = Some (normalized_newlines "A PRD.") ∧
    has_CR (normalized_newlines "A PRD.") = false ∧
    (has_CR "A PRD." = false →
     prd (init (prd_dir (generate_prd running (Returned "A PRD.")
                           (Some 1700000000%Z)).2)
            (goal_graph_dir StoreSpec.tasker) graph_files) = Some "A PRD.").
Proof.
  apply (proj1 (restart_finds_saved_work LockSpec.res_hash 30 running "A PRD."
                  1700000000%Z StoreSpec.tasker StoreSpec.bare_graph
                  1700000000%Z (StoreSpec.calm 0) (StoreSpec.calm 1)
                  StoreSpec.empty_world)).
  left. reflexivity.
Defined.

End PipelineUse.
